(** * Class-weighted learning notebook: imbalance injection, split sizes,
      balanced class weights and evaluation metrics

    Shallow embedding of the executable cells of
    [6. Mitigate Class imbalanced problem in keras.ipynb].

    - Python lists are [list]; a slot that may hold [None] is an [option].
    - Python ints (labels) are [Z]; indices and lengths are [nat].
    - Python exceptions are an explicit [result] type.
    - NumPy floats are modelled by rationals [Q]: the two metrics are
      quotients of small integers and a probability is only compared with
      1/2. The class weights are given twice, as the exact quotients the
      library's rule prescribes and as the float64 values the program
      holds, which are these quotients rounded once ([round64]).
    - The dictionary built by [dict(zip(...))] is a [gmap Z Q]. *)

From Stdlib Require Import ZArith QArith Qround Qabs Qpower Lia Lqa.
From stdpp Require Import base option list sorting gmap.

Set Default Proof Using "Type".

(** ** Exceptions *)

Inductive exn : Type :=
| IndexError
| ValueError.

Inductive result (A : Type) : Type :=
| Ok (a : A)
| Raise (e : exn).
Arguments Ok {A} a.
Arguments Raise {A} e.

Definition rbind {A B : Type} (m : result A) (k : A → result B) : result B :=
  match m with
  | Ok a => k a
  | Raise e => Raise e
  end.

Notation "x ←! m ; k" := (rbind m (λ x, k))
  (at level 20, m at level 100, k at level 200, right associativity,
   format "x  ←!  m ;  '/' k").
Notation "' pat ←! m ; k" := (rbind m (λ x, match x with pat => k end))
  (at level 20, pat pattern, m at level 100, k at level 200,
   right associativity, format "' pat  ←!  m ;  '/' k").

(** [for i in idx: body] over a state, stopping at the first exception. *)
Fixpoint for_each {S : Type} (body : S → nat → result S)
    (idx : list nat) (st : S) : result S :=
  match idx with
  | [] => Ok st
  | i :: idx' => st' ←! body st i; for_each body idx' st'
  end.

(** [[f(e) for e in l]] where [f] may raise. *)
Fixpoint map_result {A B : Type} (f : A → result B) (l : list A)
    : result (list B) :=
  match l with
  | [] => Ok []
  | a :: l' => b ←! f a; bs ←! map_result f l'; Ok (b :: bs)
  end.

(** [Counter(l)[c]]: number of occurrences of [c] in [l]. *)
Definition Counter (l : list Z) (c : Z) : nat :=
  length (filter (λ v, v = c) l).

(** ** Cells 5 and 6: imbalance injection *)

Section injection.
Context {feature : Type}.

(** The two module-level lists after [tolist()], each slot holding a
    value or, once blanked by cell 5, [None]. *)
Definition table : Type := (list (option feature) * list (option Z))%type.

(** Body of the cell-5 loop at index [i]:
<<
    if y_data[i] == 0:
        X_data[i] = None
        y_data[i] = None
>>
    Reading or writing past the end of a list raises IndexError. *)
Definition blank_row (target : Z) (st : table) (i : nat) : result table :=
  let '(X_data, y_data) := st in
  match y_data !! i with
  | None => Raise IndexError
  | Some v =>
      if decide (v = Some target) then
        if decide (i < length X_data) then
          Ok (<[i := None]> X_data, <[i := None]> y_data)
        else Raise IndexError
      else Ok (X_data, y_data)
  end.

(** [for i in range(n): ...] with the compared label as a parameter. *)
Definition blank_rows (n : nat) (target : Z) (st : table) : result table :=
  for_each (blank_row target) (seq 0 n) st.

(** Cell 5 as written: [range(200)] and label [0]. *)
Definition cell5 (st : table) : result table := blank_rows 200 0 st.

(** Cell 6: [[x for x in X_data if x != None]], same for [y_data]. *)
Definition cell6 (st : table) : list feature * list Z :=
  (omap id st.1, omap id st.2).

(** Cells 3, 5 and 6 chained on freshly loaded lists. *)
Definition inject (n : nat) (target : Z) (X : list feature) (y : list Z)
    : result (list feature * list Z) :=
  st ←! blank_rows n target (Some <$> X, Some <$> y); Ok (cell6 st).

Definition inject_imbalance (X : list feature) (y : list Z)
    : result (list feature * list Z) :=
  st ←! cell5 (Some <$> X, Some <$> y); Ok (cell6 st).

(** What the loop leaves in the lists, written by recursion on the rows:
    the first [n] rows whose label is [target] are blanked. *)
Fixpoint blanked (n : nat) (target : Z) (d : list (feature * Z))
    : list (option (feature * Z)) :=
  match n, d with
  | S n', s :: d' =>
      (if decide (s.2 = target) then None else Some s)
        :: blanked n' target d'
  | _, _ => Some <$> d
  end.

(** The surviving rows in terms of list operations. *)
Definition survivors (n : nat) (target : Z) (d : list (feature * Z))
    : list (feature * Z) :=
  filter (λ s, s.2 ≠ target) (take n d) ++ drop n d.

(** The injector as the specification words it, for comparison with
    [inject]: drop the first [n] samples whose label is [target]. *)
Fixpoint remove_first_matching (n : nat) (target : Z)
    (d : list (feature * Z)) : list (feature * Z) :=
  match n, d with
  | S n', s :: d' =>
      if decide (s.2 = target) then remove_first_matching n' target d'
      else s :: remove_first_matching n target d'
  | _, _ => d
  end.
End injection.

(** ** Cell 8: train/test split

    [train_test_split(np.asarray(X_data), np.asarray(y_data),
                      test_size = 0.2, random_state = 7)]
    is scikit-learn's shuffle split: the arrays must have one length [n];
    [n_test = ceil(test_size * n)], [n_train = n - n_test]; a split that
    would leave the training part empty raises ValueError; with
    [p = rng.permutation(n)] the test rows are [p[:n_test]] and the train
    rows [p[n_test : n_test + n_train]]; each array is indexed by both. *)

(** NumPy fancy indexing [a[ind]]; an index past the end raises. *)
Definition take_rows {A : Type} (a : list A) (ind : list nat)
    : result (list A) :=
  map_result
    (λ i, match a !! i with Some v => Ok v | None => Raise IndexError end)
    ind.

(** [test_size = 0.2]. For a length [n] below 2^50 the float product
    [0.2 * n] has the same ceiling as the exact [n / 5] (it is exactly
    [n / 5] when 5 divides [n]), so the exact rational is used. *)
Definition test_size : Q := 0.2%Q.

Definition n_test_of (ts : Q) (n : nat) : nat :=
  Z.to_nat (Qceiling (ts * inject_Z (Z.of_nat n))).

Definition n_train_of (ts : Q) (n : nat) : nat := n - n_test_of ts n.

Section splitter.
Context {feature : Type}.

(** [rng.permutation(n)] of the generator seeded with [random_state = 7];
    which permutation it is does not matter for the split sizes. *)
Variable permutation : nat → list nat.

Definition train_test_split (ts : Q) (X : list feature) (y : list Z)
    : result (list feature * list feature * list Z * list Z) :=
  if decide (length X = length y) then
    let n := length X in
    if decide (n_train_of ts n = 0) then Raise ValueError else
    let p := permutation n in
    let ind_test := take (n_test_of ts n) p in
    let ind_train := take (n_train_of ts n) (drop (n_test_of ts n) p) in
    X_train ←! take_rows X ind_train;
    X_test ←! take_rows X ind_test;
    y_train ←! take_rows y ind_train;
    y_test ←! take_rows y ind_test;
    Ok (X_train, X_test, y_train, y_test)
  else Raise ValueError.

(** Cell 8 as written. *)
Definition cell8 (X_data : list feature) (y_data : list Z) :=
  train_test_split test_size X_data y_data.
End splitter.

(** ** Cells 10 and 11: balanced class weights

    [compute_class_weight('balanced', classes, y)] is scikit-learn's:
    an empty [y] raises ValueError; every label of [y] must be
    listed in [classes]; the labels of [y] are encoded by their position
    in the sorted distinct labels; the weight of position [k] is
    [len(y) / (n_classes * bincount(y_ind)[k])]; the result lists the
    weights in the order of [classes]. *)

(** [np.unique]: the sorted distinct values. *)
Fixpoint insert_sorted (v : Z) (l : list Z) : list Z :=
  match l with
  | [] => [v]
  | w :: l' =>
      if (v <? w)%Z then v :: l
      else if (v =? w)%Z then l
      else w :: insert_sorted v l'
  end.

Definition np_unique (a : list Z) : list Z := foldr insert_sorted [] a.

(** [LabelEncoder.transform] of one label: its position among the
    classes; a label that is not a class raises ValueError. *)
Fixpoint encode (classes : list Z) (v : Z) : result nat :=
  match classes with
  | [] => Raise ValueError
  | c :: cs => if decide (v = c) then Ok 0 else i ←! encode cs v; Ok (S i)
  end.

(** [np.bincount]: occurrences of each of [0 .. max(x)]; empty for an
    empty input. *)
Definition bincount (x : list nat) : list nat :=
  match x with
  | [] => []
  | _ => (λ k, length (filter (λ j, j = k) x)) <$> seq 0 (S (max_list x))
  end.

Definition Q_of_nat (n : nat) : Q := inject_Z (Z.of_nat n).

Definition compute_class_weight_balanced (classes y : list Z)
    : result (list Q) :=
  if decide (y = []) then Raise ValueError
  else if decide (Forall (λ v, v ∈ classes) y) then
    let le_classes := np_unique y in
    y_ind ←! map_result (encode le_classes) y;
    if decide (Forall (λ c, c ∈ le_classes) classes) then
      let recip_freq :=
        (λ cnt, Q_of_nat (length y)
                / (Q_of_nat (length le_classes) * Q_of_nat cnt))%Q
          <$> bincount y_ind in
      ind ←! map_result (encode le_classes) classes;
      take_rows recip_freq ind
    else Raise ValueError
  else Raise ValueError.

(** [dict(pairs)]: pairs are inserted left to right, a later pair with
    the same key replaces the earlier one. *)
Definition dict (pairs : list (Z * Q)) : gmap Z Q :=
  foldl (λ m kv, <[kv.1 := kv.2]> m) ∅ pairs.

(** Cells 10-11:
<<
    weights = class_weight.compute_class_weight('balanced',
                                                np.unique(y_train), y_train)
    class_weights = dict(zip(np.unique(y_train), weights))
>> *)
Definition class_weights (y_train : list Z) : result (gmap Z Q) :=
  weights ←! compute_class_weight_balanced (np_unique y_train) y_train;
  Ok (dict (zip (np_unique y_train) weights)).

(** ** Cells 15 and 16: evaluation *)

(** [np.round]: to the nearest integer, ties to the even one. *)
Definition np_round (q : Q) : Z :=
  let f := Qfloor q in
  match (q - inject_Z f ?= 1 # 2)%Q with
  | Lt => f
  | Gt => (f + 1)%Z
  | Eq => if Z.even f then f else (f + 1)%Z
  end.

(** [a.sum()] *)
Definition np_sum (a : list Q) : Q := foldr Qplus 0%Q a.

(** ** The float64 class weights

    A float64 has a 53-bit significand. [Qlog2 q] is the exponent of the
    leading bit of [q], and [round64 q] the nearest multiple of
    [2 ^ (Qlog2 q - 52)], the even multiple at a tie ([np_round] rounds
    the same way): the IEEE rounding of one arithmetic operation. The
    exponent range is not modelled; the numbers rounded here are
    quotients and products of list lengths. *)
Definition Qlog2 (q : Q) : Z :=
  let e := (Z.log2 (Z.abs (Qnum q)) - Z.log2 (Z.pos (Qden q)))%Z in
  if Qle_bool (2 ^ e) (Qabs q) then e else (e - 1)%Z.

Definition round64 (q : Q) : Q :=
  if Qeq_bool q 0 then 0%Q
  else (inject_Z (np_round (q / 2 ^ (Qlog2 q - 52))) * 2 ^ (Qlog2 q - 52))%Q.

(** The dictionary as the program holds it. [len(y)] and
    [n_classes * bincount] are integers a float64 represents exactly, so
    each weight is their quotient rounded once. *)
Definition class_weights_f64 (y_train : list Z) : result (gmap Z Q) :=
  cw ←! class_weights y_train; Ok (round64 <$> cw).

Section evaluator.
Context {feature : Type}.

(** [model.predict] on one row: the sigmoid output of the trained
    network. Training is not modelled; the function is a parameter. *)
Variable predict : feature → Q.

(** Cell 15: [y_pred = model.predict(X_test).round()]. *)
Definition y_pred_of (X_test : list feature) : list Q :=
  (λ x, inject_Z (np_round (predict x))) <$> X_test.

(** Cell 16, first line: [y_pred.sum() / len(y_pred)]. For an empty
    array NumPy yields nan, which a rational does not represent; the
    quotient is only used for a non-empty [y_pred]. *)
Definition positive_fraction (y_pred : list Q) : Q :=
  (np_sum y_pred / Q_of_nat (length y_pred))%Q.

(** [accuracy_score(y_true, y_pred)]: the mean of the element-wise
    comparison; arrays of different lengths and empty arrays raise
    ValueError. *)
Definition accuracy_score (y_true : list Q) (y_pred : list Z) : result Q :=
  if decide (length y_true = length y_pred) then
    if decide (y_true = []) then Raise ValueError
    else
      let score :=
        zip_with (λ a b, Qeq_bool a (inject_Z b)) y_true y_pred in
      Ok (np_sum ((λ b : bool, if b then 1 else 0)%Q <$> score)
          / Q_of_nat (length score))%Q
  else Raise ValueError.

(** Cell 16, second line: [accuracy_score(y_pred, y_test)]. *)
Definition cell16_accuracy (X_test : list feature) (y_test : list Z)
    : result Q :=
  accuracy_score (y_pred_of X_test) y_test.
End evaluator.

(** ** Cells 5 to 11 in sequence *)

Section pipeline.
Context {feature : Type}.
Variable permutation : nat → list nat.

(** The data-preparation cells run one after the other on the loaded
    lists, each on the variables the previous one assigned; the first
    exception ends the run. *)
Definition cells_5_to_11 (X_data : list feature) (y_data : list Z)
    : result (list feature * list feature * list Z * list Z * gmap Z Q) :=
  '(X_data, y_data) ←! inject_imbalance X_data y_data;
  '(X_train, X_test, y_train, y_test) ←! cell8 permutation X_data y_data;
  class_weights ←! class_weights y_train;
  Ok (X_train, X_test, y_train, y_test, class_weights).
End pipeline.

(** ** The recorded scenario

    The label column of the loaded table is not part of the notebook; the
    cell outputs fix its counts: 212 zeros and 357 ones before cell 5, 108
    zeros and 357 ones after cell 6, so 104 of the first 200 labels are
    zero. [scenario_y] is a label column with exactly these counts, and
    [scenario_X] numbers the rows. *)
Definition scenario_y : list Z :=
  replicate 104 0%Z ++ replicate 96 1%Z
    ++ replicate 108 0%Z ++ replicate 261 1%Z.

Definition scenario_X : list nat := seq 0 569.

(** ** Basic facts about the error monad and the counters *)

Lemma for_each_app {S : Type} (body : S → nat → result S) idx1 idx2 st :
  for_each body (idx1 ++ idx2) st
  = st' ←! for_each body idx1 st; for_each body idx2 st'.
Proof.
  revert st. induction idx1 as [|i idx1 IH]; intros st; simpl; [done|].
  destruct (body st i) as [st'|e]; simpl; [apply IH|done].
Qed.

Lemma Counter_nil c : Counter [] c = 0.
Proof. done. Qed.

Lemma Counter_cons v l c :
  Counter (v :: l) c = (if decide (v = c) then 1 else 0) + Counter l c.
Proof.
  unfold Counter. rewrite filter_cons. by destruct (decide (v = c)).
Qed.

Lemma Counter_app l1 l2 c : Counter (l1 ++ l2) c = Counter l1 c + Counter l2 c.
Proof. unfold Counter. by rewrite filter_app, length_app. Qed.

Lemma Counter_take_drop n l c :
  Counter l c = Counter (take n l) c + Counter (drop n l) c.
Proof. by rewrite <- Counter_app, take_drop. Qed.

Lemma Counter_le_length l c : Counter l c ≤ length l.
Proof. apply length_filter. Qed.

Lemma Counter_pos l c : c ∈ l ↔ 0 < Counter l c.
Proof.
  induction l as [|v l IH]; [rewrite Counter_nil; split; [inversion 1|lia]|].
  rewrite Counter_cons, elem_of_cons, IH.
  destruct (decide (v = c)); split; try lia; naive_solver lia.
Qed.

Lemma Counter_full l c : Counter l c = length l ↔ l = replicate (length l) c.
Proof.
  induction l as [|v l IH]; [done|].
  rewrite Counter_cons. simpl. pose proof (Counter_le_length l c).
  destruct (decide (v = c)) as [->|Hne]; split.
  - intros Hc. f_equal. apply IH. lia.
  - intros [= Hl]. apply IH in Hl. lia.
  - lia.
  - intros [= ? _]. done.
Qed.

(** ** The cell-5 loop *)

Section injection_facts.
Context {feature : Type}.
Implicit Types (d : list (feature * Z)) (X : list feature) (y : list Z).

Lemma length_blanked n target d : length (blanked n target d) = length d.
Proof.
  revert d. induction n as [|n IH]; intros [|s d]; simpl;
    rewrite ?length_fmap; auto.
Qed.

(** Loop invariant: with [length pre_y] rows already visited, visiting
    the next [n] rows blanks exactly the rows [blanked] blanks. *)
Lemma blank_rows_from target n :
  ∀ (pre_X : list (option feature)) (pre_y : list (option Z)) d,
    length pre_X = length pre_y →
    n ≤ length d →
    for_each (blank_row target) (seq (length pre_y) n)
      (pre_X ++ (Some <$> d.*1), pre_y ++ (Some <$> d.*2))
    = Ok (pre_X ++ (option_map fst <$> blanked n target d),
          pre_y ++ (option_map snd <$> blanked n target d)).
Proof.
  induction n as [|n IH]; intros pre_X pre_y d Hpre Hn.
  { simpl. destruct d; simpl; by rewrite <- ?list_fmap_compose. }
  destruct d as [|[x v] d]; simpl in Hn; [lia|].
  cbn [seq for_each]. unfold blank_row at 1. cbn [fmap list_fmap fst snd].
  rewrite lookup_app_r by lia. rewrite Nat.sub_diag. cbn [lookup list_lookup].
  cbn [blanked snd].
  destruct (decide (Some v = Some target)) as [Heq|Hne].
  - assert (v = target) as -> by congruence.
    rewrite decide_True by (rewrite length_app; simpl; lia).
    rewrite decide_True by done. cbn [rbind fmap list_fmap option_fmap option_map].
    rewrite <- Hpre at 1.
    rewrite !insert_app_r_alt by lia. rewrite Hpre, !Nat.sub_diag. simpl.
    rewrite (cons_middle None pre_X), (cons_middle None pre_y), !app_assoc.
    replace (S (length pre_y)) with (length (pre_y ++ [None]))
      by (rewrite length_app; simpl; lia).
    rewrite IH by (rewrite ?length_app; simpl; lia).
    by rewrite <- !app_assoc.
  - rewrite decide_False by congruence.
    cbn [rbind fmap list_fmap option_fmap option_map fst snd].
    rewrite (cons_middle (Some x) pre_X), (cons_middle (Some v) pre_y),
      !app_assoc.
    replace (S (length pre_y)) with (length (pre_y ++ [Some v]))
      by (rewrite length_app; simpl; lia).
    rewrite IH by (rewrite ?length_app; simpl; lia).
    by rewrite <- !app_assoc.
Qed.

Lemma blank_rows_ok n target d :
  n ≤ length d →
  blank_rows n target (Some <$> d.*1, Some <$> d.*2)
  = Ok (option_map fst <$> blanked n target d, option_map snd <$> blanked n target d).
Proof.
  intros Hn. apply (blank_rows_from target n [] [] d); done.
Qed.

(** Past the last row the label read raises. *)
Lemma blank_rows_short n target d :
  length d < n →
  blank_rows n target (Some <$> d.*1, Some <$> d.*2) = Raise IndexError.
Proof.
  intros Hn. unfold blank_rows.
  replace n with (length d + S (n - length d - 1)) by lia.
  rewrite seq_app, for_each_app.
  pose proof (blank_rows_ok (length d) target d (le_n _)) as Hok.
  unfold blank_rows in Hok. rewrite Hok. cbn [rbind seq for_each blank_row plus].
  rewrite lookup_ge_None_2; [done|].
  by rewrite length_fmap, length_blanked.
Qed.

Lemma omap_blanked n target d :
  omap id (blanked n target d) = survivors n target d.
Proof.
  unfold survivors. revert d. induction n as [|n IH]; intros d.
  { rewrite take_0, drop_0. simpl. induction d; simpl; [done|].
    destruct d; simpl in *; by f_equal. }
  destruct d as [|s d]; [done|]. cbn [blanked take drop].
  rewrite filter_cons.
  destruct (decide (s.2 = target)); simpl.
  - rewrite decide_False by tauto. apply IH.
  - rewrite decide_True by done. simpl. f_equal. apply IH.
Qed.

Lemma omap_id_fmap {A B} (f : A → B) (l : list (option A)) :
  omap id (option_map f <$> l) = f <$> omap id l.
Proof.
  induction l as [|[a|] l IH]; simpl; [done| |done]. by f_equal.
Qed.

(** Closed form of cells 5-6 on a well-formed dataset. *)
Lemma inject_ok n target d :
  n ≤ length d →
  inject n target d.*1 d.*2
  = Ok ((survivors n target d).*1, (survivors n target d).*2).
Proof.
  intros Hn. unfold inject. rewrite blank_rows_ok by done.
  cbn [rbind]. unfold cell6. cbn [fst snd].
  by rewrite !omap_id_fmap, omap_blanked.
Qed.

Lemma inject_short n target d :
  length d < n → inject n target d.*1 d.*2 = Raise IndexError.
Proof.
  intros Hn. unfold inject. by rewrite blank_rows_short.
Qed.

Lemma survivors_sublist n target d : sublist (survivors n target d) d.
Proof.
  unfold survivors. rewrite <- (take_drop n d) at 3.
  apply sublist_app; [apply sublist_filter|done].
Qed.

Lemma Counter_survivors_target n target d :
  Counter (survivors n target d).*2 target
  = Counter d.*2 target - Counter (take n d).*2 target.
Proof.
  rewrite (Counter_take_drop n d.*2 target).
  unfold survivors. rewrite fmap_app, Counter_app, <- fmap_take, <- fmap_drop.
  assert (Counter (filter (λ s, s.2 ≠ target) (take n d)).*2 target = 0)
    as ->; [|lia].
  induction (take n d) as [|s l IH]; [done|].
  rewrite filter_cons. destruct (decide (s.2 ≠ target)); [|done].
  rewrite fmap_cons, Counter_cons, decide_False by done. done.
Qed.

Lemma Counter_survivors_other n target d c :
  c ≠ target →
  Counter (survivors n target d).*2 c = Counter d.*2 c.
Proof.
  intros Hc. rewrite (Counter_take_drop n d.*2 c).
  unfold survivors. rewrite fmap_app, Counter_app, <- fmap_take, <- fmap_drop.
  f_equal.
  induction (take n d) as [|s l IH]; [done|].
  rewrite filter_cons, fmap_cons, Counter_cons.
  destruct (decide (s.2 ≠ target)) as [Hs|Hs].
  - by rewrite fmap_cons, Counter_cons, IH.
  - rewrite IH. rewrite decide_False; [done|]. intros Heq. apply Hs. congruence.
Qed.
End injection_facts.

(** ** Properties of the imbalance injection *)

Section injection_claims.
Context {feature : Type}.
Implicit Types (X : list feature) (y : list Z).

Lemma inject_zip n target X y :
  length X = length y →
  n ≤ length y →
  inject n target X y
  = Ok ((survivors n target (zip X y)).*1, (survivors n target (zip X y)).*2).
Proof.
  intros Hlen Hn.
  rewrite <- (fst_zip X y) at 1 by lia.
  rewrite <- (snd_zip X y) at 2 by lia.
  apply inject_ok. rewrite length_zip. lia.
Qed.

Lemma inject_zip_short n target X y :
  length X = length y →
  length y < n →
  inject n target X y = Raise IndexError.
Proof.
  intros Hlen Hn.
  rewrite <- (fst_zip X y) at 1 by lia.
  rewrite <- (snd_zip X y) at 2 by lia.
  apply inject_short. rewrite length_zip. lia.
Qed.

(** C2 (amended). The injector removes exactly the samples that lie among
    the first [n] positions and carry the target label; every other
    sample survives, in its original relative order. *)
Theorem inject_removes_scanned_matches n target X y :
  length X = length y →
  n ≤ length y →
  let d' := filter (λ s, s.2 ≠ target) (take n (zip X y))
            ++ drop n (zip X y) in
  inject n target X y = Ok (d'.*1, d'.*2) ∧ sublist d' (zip X y).
Proof.
  intros Hlen Hn d'. split.
  - by apply inject_zip.
  - apply survivors_sublist.
Qed.

(** C3 (amended). The number of target-label samples drops by the number
    of target labels among the first [n] positions, which is [n] exactly
    when those positions all carry the target label; the count of every
    other label is unchanged. *)
Theorem inject_counts n target X y :
  length X = length y →
  n ≤ length y →
  ∃ X' y',
    inject n target X y = Ok (X', y')
    ∧ Counter y' target = Counter y target - Counter (take n y) target
    ∧ Counter (take n y) target ≤ n
    ∧ (Counter y' target + n = Counter y target
       ↔ take n y = replicate n target)
    ∧ ∀ c, c ≠ target → Counter y' c = Counter y c.
Proof.
  intros Hlen Hn. eexists _, _. split; [by apply inject_zip|].
  rewrite Counter_survivors_target, fmap_take, snd_zip by lia.
  assert (length (take n y) = n) as Htk by (rewrite length_take; lia).
  pose proof (Counter_le_length (take n y) target) as Hle.
  pose proof (Counter_take_drop n y target) as Hsplit.
  pose proof (Counter_full (take n y) target) as Hfull.
  rewrite Htk in Hle, Hfull.
  repeat split.
  - done.
  - intros Heq. apply Hfull. lia.
  - intros Heq. apply Hfull in Heq. lia.
  - intros c Hc. rewrite Counter_survivors_other by done.
    by rewrite snd_zip by lia.
Qed.


(** C10. Features and labels are blanked at the same positions, so after
    the filter the two lists have one length and every pair of entries
    at one index is a pair of entries at one index of the input. *)
Theorem inject_keeps_alignment n target X y :
  length X = length y →
  n ≤ length y →
  ∃ Xb yb X' y',
    blank_rows n target (Some <$> X, Some <$> y) = Ok (Xb, yb)
    ∧ (∀ i, Xb !! i = Some None ↔ yb !! i = Some None)
    ∧ inject n target X y = Ok (X', y')
    ∧ length X' = length y'
    ∧ sublist (zip X' y') (zip X y)
    ∧ ∀ j x v, X' !! j = Some x → y' !! j = Some v →
               ∃ i, X !! i = Some x ∧ y !! i = Some v.
Proof.
  intros Hlen Hn.
  assert (n ≤ length (zip X y)) as Hn' by (rewrite length_zip; lia).
  pose proof (blank_rows_ok n target (zip X y) Hn') as Hb.
  rewrite fst_zip, snd_zip in Hb by lia.
  eexists _, _, _, _. split; [exact Hb|].
  split; [|split; [by apply inject_zip|]].
  { intros i. rewrite !list_lookup_fmap.
    destruct (blanked n target (zip X y) !! i) as [[[x v]|]|]; simpl;
      split; congruence. }
  set (d' := survivors n target (zip X y)).
  split; [by rewrite !length_fmap|].
  assert (zip d'.*1 d'.*2 = d') as Hz by apply zip_fst_snd.
  split; [rewrite Hz; apply survivors_sublist|].
  intros j x v Hx Hv.
  assert (d' !! j = Some (x, v)) as Hj.
  { rewrite <- Hz. apply lookup_zip_with_Some. eauto. }
  apply list_elem_of_lookup_2 in Hj.
  eapply elem_of_sublist in Hj; [|apply survivors_sublist].
  apply list_elem_of_lookup_1 in Hj as [i Hi].
  apply lookup_zip_with_Some in Hi as (x0 & v0 & [= <- <-] & ? & ?).
  eauto.
Qed.
End injection_claims.

(** ** Comprehensions that may raise *)

Lemma map_result_ok {A B : Type} (f : A → result B) (l : list A) :
  Forall (λ a, ∃ b, f a = Ok b) l →
  ∃ bs, map_result f l = Ok bs ∧ Forall2 (λ a b, f a = Ok b) l bs.
Proof.
  induction 1 as [|a l [b Hb] _ (bs & Hbs & IH)]; simpl.
  - eexists. split; [done|constructor].
  - rewrite Hb, Hbs. simpl. eexists. split; [done|by constructor].
Qed.

Lemma take_rows_ok {A : Type} (a : list A) (ind : list nat) :
  Forall (λ i, i < length a) ind →
  ∃ r, take_rows a ind = Ok r ∧ Forall2 (λ i v, a !! i = Some v) ind r.
Proof.
  intros Hind. unfold take_rows.
  edestruct (map_result_ok
    (λ i, match a !! i with Some v => Ok v | None => Raise IndexError end) ind)
    as (r & Hr & Hall).
  { eapply Forall_impl; [exact Hind|]. intros i Hi. simpl in Hi.
    destruct (lookup_lt_is_Some_2 a i Hi) as [v Hv]. rewrite Hv. eauto. }
  exists r. split; [done|].
  eapply Forall2_impl; [exact Hall|]. intros i v Hiv. simpl in Hiv.
  destruct (a !! i); congruence.
Qed.

(** ** Split sizes *)

Lemma n_test_of_fifth n :
  n ≤ 5 * n_test_of test_size n < n + 5.
Proof.
  change (n_test_of test_size n)
    with (Z.to_nat (Z.opp (Z.div (Z.opp (2 * Z.of_nat n)) 10))).
  set (c := Z.opp (Z.div (Z.opp (2 * Z.of_nat n)) 10)).
  assert (0 ≤ c ∧ Z.of_nat n ≤ 5 * c < Z.of_nat n + 5)%Z as [Hpos Hb]
    by (unfold c; Z.div_mod_to_equations; lia).
  lia.
Qed.

Lemma n_test_of_le n : n_test_of test_size n ≤ n.
Proof. pose proof (n_test_of_fifth n). lia. Qed.

Lemma n_train_of_pos n : 2 ≤ n → 0 < n_train_of test_size n.
Proof. pose proof (n_test_of_fifth n). unfold n_train_of. lia. Qed.

Lemma n_train_of_small n : n < 2 → n_train_of test_size n = 0.
Proof. pose proof (n_test_of_fifth n). unfold n_train_of. lia. Qed.

Lemma n_test_of_ratio n :
  (test_size * Q_of_nat n <= Q_of_nat (n_test_of test_size n)
   ∧ Q_of_nat (n_test_of test_size n) < test_size * Q_of_nat n + 1)%Q.
Proof.
  pose proof (n_test_of_fifth n) as Hb.
  set (t := n_test_of test_size n) in *.
  unfold Q_of_nat, test_size, Qle, Qlt.
  cbn [Qmult Qplus inject_Z Qnum Qden]. rewrite !Pos.mul_1_r. lia.
Qed.

Section splitter_facts.
Context {feature : Type}.
Variable permutation : nat → list nat.
Hypothesis permutation_spec : ∀ n, permutation n ≡ₚ seq 0 n.

Lemma permutation_bound n : Forall (λ i, i < n) (permutation n).
Proof using permutation_spec.
  rewrite permutation_spec. apply Forall_forall. intros i Hi.
  apply elem_of_seq in Hi. lia.
Qed.

Lemma train_test_split_sizes (X : list feature) (y : list Z) :
  length X = length y →
  2 ≤ length X →
  ∃ X_train X_test y_train y_test,
    train_test_split permutation test_size X y
    = Ok (X_train, X_test, y_train, y_test)
    ∧ length X_train = n_train_of test_size (length X)
    ∧ length X_test = n_test_of test_size (length X)
    ∧ length y_train = n_train_of test_size (length X)
    ∧ length y_test = n_test_of test_size (length X).
Proof using permutation_spec.
  intros Hlen Hrows. unfold train_test_split. rewrite decide_True by done.
  rewrite decide_False by (pose proof (n_train_of_pos _ Hrows); lia).
  set (n := length X).
  pose proof (permutation_bound n) as Hb.
  assert (length (permutation n) = n) as Hpl
    by (by rewrite permutation_spec, length_seq).
  pose proof (n_test_of_le n) as Hle.
  set (ind_test := take (n_test_of test_size n) (permutation n)).
  set (ind_train := take (n_train_of test_size n)
                      (drop (n_test_of test_size n) (permutation n))).
  assert (Forall (λ i, i < n) ind_test) as Hte by by apply Forall_take.
  assert (Forall (λ i, i < n) ind_train) as Htr
    by by apply Forall_take, Forall_drop.
  assert (length ind_test = n_test_of test_size n) as Hlte
    by (unfold ind_test; rewrite length_take; lia).
  assert (length ind_train = n_train_of test_size n) as Hltr
    by (unfold ind_train, n_train_of;
        rewrite length_take, length_drop; lia).
  destruct (take_rows_ok X ind_train Htr) as (X_train & -> & HXtr).
  destruct (take_rows_ok X ind_test Hte) as (X_test & -> & HXte).
  assert (n = length y) as Hny by done.
  rewrite Hny in Hte, Htr.
  destruct (take_rows_ok y ind_train Htr) as (y_train & -> & Hytr).
  destruct (take_rows_ok y ind_test Hte) as (y_test & -> & Hyte).
  simpl. eexists _, _, _, _. split; [done|].
  apply Forall2_length in HXtr, HXte, Hytr, Hyte. lia.
Qed.
End splitter_facts.

Lemma inject_Ok_length {feature : Type} n target (X X' : list feature) y y' :
  length X = length y →
  inject n target X y = Ok (X', y') →
  n ≤ length y ∧ length X' = length y'.
Proof.
  intros Hlen Hinj. destruct (decide (n ≤ length y)) as [Hn|Hn].
  - rewrite inject_zip in Hinj by done. injection Hinj as <- <-.
    by rewrite !length_fmap.
  - rewrite inject_zip_short in Hinj by lia. discriminate.
Qed.

(** C7. Whatever permutation the seeded generator draws, cell 8 splits
    post-injection lists of at least two rows into train and test parts
    whose sizes add up to the number of surviving rows, the test part
    holding [ceil(0.2 * rows)] rows: 372 and 93 of the 465 recorded
    rows. *)
Theorem split_sizes_after_injection {feature : Type}
    (permutation : nat → list nat) n target
    (X X' : list feature) (y y' : list Z) :
  (∀ m, permutation m ≡ₚ seq 0 m) →
  length X = length y →
  inject n target X y = Ok (X', y') →
  2 ≤ length X' →
  ∃ X_train X_test y_train y_test,
    cell8 permutation X' y' = Ok (X_train, X_test, y_train, y_test)
    ∧ length X_train + length X_test = length X'
    ∧ length y_train + length y_test = length y'
    ∧ length y_train = length X_train
    ∧ (test_size * Q_of_nat (length X') <= Q_of_nat (length X_test))%Q
    ∧ (Q_of_nat (length X_test) < test_size * Q_of_nat (length X') + 1)%Q
    ∧ (length X' = 465 → length X_train = 372 ∧ length X_test = 93).
Proof.
  intros Hperm Hlen Hinj Hrows.
  destruct (inject_Ok_length _ _ _ _ _ _ Hlen Hinj) as [_ Hlen'].
  destruct (train_test_split_sizes permutation Hperm X' y' Hlen' Hrows)
    as (X_train & X_test & y_train & y_test & Hsplit & H1 & H2 & H3 & H4).
  exists X_train, X_test, y_train, y_test.
  pose proof (n_test_of_le (length X')) as Hle.
  pose proof (n_test_of_ratio (length X')) as [Hlo Hhi].
  unfold n_train_of in *.
  split; [exact Hsplit|]. rewrite H1, H2, H3, H4.
  split; [lia|]. split; [lia|]. split; [done|]. split; [done|].
  split; [done|]. intros ->. split; reflexivity.
Qed.

(** ** Sorted distinct labels and their encoding *)

Lemma elem_of_insert_sorted x v l : x ∈ insert_sorted v l ↔ x = v ∨ x ∈ l.
Proof.
  induction l as [|w l IH]; simpl.
  - rewrite list_elem_of_singleton, elem_of_nil. tauto.
  - destruct (Z.ltb_spec v w); [by rewrite elem_of_cons|].
    destruct (Z.eqb_spec v w) as [->|Hne].
    + rewrite elem_of_cons. tauto.
    + rewrite !elem_of_cons, IH. tauto.
Qed.

Lemma elem_of_np_unique x a : x ∈ np_unique a ↔ x ∈ a.
Proof.
  induction a as [|v a IH]; simpl; [done|].
  rewrite elem_of_insert_sorted, elem_of_cons, IH. tauto.
Qed.

Lemma insert_sorted_sorted v l :
  StronglySorted Z.lt l → StronglySorted Z.lt (insert_sorted v l).
Proof.
  induction 1 as [|w l Hl IH Hw]; simpl.
  - repeat constructor.
  - destruct (Z.ltb_spec v w) as [Hlt|Hge].
    + constructor; [by constructor|]. constructor; [done|].
      eapply Forall_impl; [exact Hw|]. intros u Hu. simpl in Hu. lia.
    + destruct (Z.eqb_spec v w) as [->|Hne]; [by constructor|].
      constructor; [done|]. apply Forall_forall. intros u Hu.
      apply elem_of_insert_sorted in Hu as [->|Hu]; [lia|].
      by eapply Forall_forall in Hw.
Qed.

Lemma np_unique_sorted a : StronglySorted Z.lt (np_unique a).
Proof.
  induction a; simpl; [constructor|by apply insert_sorted_sorted].
Qed.

Lemma np_unique_NoDup a : NoDup (np_unique a).
Proof.
  induction (np_unique_sorted a) as [|w l Hl IH Hw]; constructor; [|done].
  intros Hin. eapply Forall_forall in Hw; [|exact Hin]. simpl in Hw. lia.
Qed.

Lemma np_unique_length a :
  length (np_unique a) = size (list_to_set (C := gset Z) a).
Proof.
  rewrite <- (size_list_to_set (C := gset Z)) by apply np_unique_NoDup.
  f_equal. apply set_eq. intros x.
  by rewrite !elem_of_list_to_set, elem_of_np_unique.
Qed.

Lemma encode_lookup classes v i :
  encode classes v = Ok i → classes !! i = Some v.
Proof.
  revert i. induction classes as [|c cs IH]; intros i; simpl; [done|].
  destruct (decide (v = c)) as [->|Hne]; [by intros [= <-]|].
  destruct (encode cs v) as [j|e]; simpl; [|done].
  intros [= <-]. by apply IH.
Qed.

Lemma encode_elem_of classes v : v ∈ classes → ∃ i, encode classes v = Ok i.
Proof.
  induction classes as [|c cs IH]; simpl; [by intros ?%elem_of_nil|].
  intros Hin. destruct (decide (v = c)); [eauto|].
  apply elem_of_cons in Hin as [?|Hin]; [done|].
  destruct (IH Hin) as [i ->]. simpl. eauto.
Qed.

Lemma bincount_lookup x k :
  k ∈ x → bincount x !! k = Some (length (filter (λ j, j = k) x)).
Proof.
  intros Hk. pose proof (max_list_elem_of_le k x Hk) as Hmax.
  unfold bincount. destruct x as [|j x]; [by apply elem_of_nil in Hk|].
  rewrite list_lookup_fmap, lookup_seq_lt by lia. done.
Qed.

Lemma count_encoded classes y y_ind c k :
  Forall2 (λ v i, encode classes v = Ok i) y y_ind →
  encode classes c = Ok k →
  length (filter (λ j, j = k) y_ind) = Counter y c.
Proof.
  intros Hall Hc. induction Hall as [|v i y y_ind Hv _ IH]; [done|].
  rewrite Counter_cons, filter_cons.
  destruct (decide (i = k)) as [->|Hik], (decide (v = c)) as [->|Hvc];
    simpl; rewrite IH; try done.
  - apply encode_lookup in Hv, Hc. congruence.
  - congruence.
Qed.

Lemma encoded_elem_of classes y y_ind c k :
  Forall2 (λ v i, encode classes v = Ok i) y y_ind →
  encode classes c = Ok k →
  c ∈ y →
  k ∈ y_ind.
Proof.
  intros Hall Hc Hin. apply list_elem_of_lookup_1 in Hin as [p Hp].
  destruct (Forall2_lookup_l _ _ _ _ _ Hall Hp) as (i & Hi & Henc).
  apply list_elem_of_lookup_2 in Hi. congruence.
Qed.

(** ** The dictionary of cell 11 *)

Lemma dict_foldl_fresh (pairs : list (Z * Q)) (m : gmap Z Q) k :
  k ∉ pairs.*1 →
  foldl (λ m kv, <[kv.1 := kv.2]> m) m pairs !! k = m !! k.
Proof.
  revert m. induction pairs as [|[k0 v0] pairs IH]; intros m Hk; [done|].
  rewrite fmap_cons, not_elem_of_cons in Hk. destruct Hk as [Hne Hk].
  simpl. rewrite IH by done. by rewrite lookup_insert_ne.
Qed.

Lemma dict_foldl_lookup (pairs : list (Z * Q)) (m : gmap Z Q) k v :
  NoDup pairs.*1 →
  (k, v) ∈ pairs →
  foldl (λ m kv, <[kv.1 := kv.2]> m) m pairs !! k = Some v.
Proof.
  revert m. induction pairs as [|[k0 v0] pairs IH]; intros m Hnd Hin.
  { by apply elem_of_nil in Hin. }
  rewrite fmap_cons in Hnd. apply NoDup_cons in Hnd as [Hfresh Hnd].
  apply elem_of_cons in Hin as [[= -> ->]|Hin]; simpl.
  - rewrite dict_foldl_fresh by done. apply lookup_insert_eq.
  - by apply IH.
Qed.

Lemma dict_lookup_Some pairs k v :
  NoDup pairs.*1 → (k, v) ∈ pairs → dict pairs !! k = Some v.
Proof. apply dict_foldl_lookup. Qed.

Lemma dict_lookup_None pairs k : k ∉ pairs.*1 → dict pairs !! k = None.
Proof. intros Hk. unfold dict. by rewrite dict_foldl_fresh. Qed.

(** ** Balanced class weights *)

Lemma weights_of_classes (f : nat → Q) cl y y_ind classes ind ws :
  Forall2 (λ v i, encode cl v = Ok i) y y_ind →
  Forall (λ c, c ∈ y) classes →
  Forall2 (λ c i, encode cl c = Ok i) classes ind →
  Forall2 (λ i w, (f <$> bincount y_ind) !! i = Some w) ind ws →
  Forall2 (λ c w, w = f (Counter y c)) classes ws.
Proof.
  intros Hy Hin Hc. revert ws.
  induction Hc as [|c i classes ind Hci _ IH]; intros ws Hw.
  { inversion Hw. constructor. }
  inversion Hw as [|? w ? ws' Hiw Hw']; subst.
  apply Forall_cons in Hin as [Hcy Hin].
  constructor; [|by apply IH].
  rewrite list_lookup_fmap, (bincount_lookup y_ind i) in Hiw
    by (by eapply encoded_elem_of).
  simpl in Hiw. injection Hiw as <-. f_equal. by eapply count_encoded.
Qed.

Lemma encoded_in_range cl y y_ind classes ind :
  Forall2 (λ v i, encode cl v = Ok i) y y_ind →
  Forall (λ c, c ∈ y) classes →
  Forall2 (λ c i, encode cl c = Ok i) classes ind →
  Forall (λ i, i < length (bincount y_ind)) ind.
Proof.
  intros Hy Hin Hc.
  induction Hc as [|c i classes ind Hci _ IH]; [constructor|].
  apply Forall_cons in Hin as [Hcy Hin]. constructor; [|by apply IH].
  apply lookup_lt_is_Some.
  erewrite bincount_lookup by (by eapply encoded_elem_of). by eexists.
Qed.

Lemma compute_class_weight_balanced_ok y :
  y ≠ [] →
  ∃ ws,
    compute_class_weight_balanced (np_unique y) y = Ok ws
    ∧ Forall2
        (λ c w, w = (Q_of_nat (length y)
                     / (Q_of_nat (length (np_unique y))
                        * Q_of_nat (Counter y c)))%Q)
        (np_unique y) ws.
Proof.
  intros Hne. unfold compute_class_weight_balanced.
  rewrite (decide_False (P := y = [])) by done.
  rewrite decide_True
    by (apply Forall_forall; intros v Hv; by apply elem_of_np_unique).
  destruct (map_result_ok (encode (np_unique y)) y) as (y_ind & -> & Hy).
  { apply Forall_forall. intros v Hv.
    by apply encode_elem_of, elem_of_np_unique. }
  cbn [rbind]. rewrite decide_True by (by apply Forall_forall).
  destruct (map_result_ok (encode (np_unique y)) (np_unique y))
    as (ind & -> & Hc).
  { apply Forall_forall. intros c Hcin. by apply encode_elem_of. }
  cbn [rbind].
  assert (Forall (λ c, c ∈ y) (np_unique y)) as Hin
    by (apply Forall_forall; intros c Hcin; by apply elem_of_np_unique).
  set (f := λ cnt, (Q_of_nat (length y)
                    / (Q_of_nat (length (np_unique y)) * Q_of_nat cnt))%Q).
  destruct (take_rows_ok (f <$> bincount y_ind) ind) as (ws & -> & Hw).
  { rewrite length_fmap. by eapply encoded_in_range. }
  exists ws. split; [done|].
  by apply (weights_of_classes f (np_unique y) y y_ind (np_unique y) ind ws).
Qed.

Lemma class_weights_ok y :
  y ≠ [] →
  ∃ cw,
    class_weights y = Ok cw
    ∧ (∀ c, c ∈ y →
         cw !! c = Some (Q_of_nat (length y)
                         / (Q_of_nat (length (np_unique y))
                            * Q_of_nat (Counter y c)))%Q)
    ∧ (∀ c, c ∉ y → cw !! c = None).
Proof.
  intros Hne. unfold class_weights.
  destruct (compute_class_weight_balanced_ok y Hne) as (ws & -> & Hws).
  cbn [rbind]. eexists. split; [done|].
  pose proof (Forall2_length _ _ _ Hws) as Hlen.
  assert ((zip (np_unique y) ws).*1 = np_unique y) as Hfst
    by (apply fst_zip; lia).
  split.
  - intros c Hc. apply elem_of_np_unique, list_elem_of_lookup_1 in Hc
      as [j Hj].
    destruct (Forall2_lookup_l _ _ _ _ _ Hws Hj) as (w & Hw & ->).
    apply dict_lookup_Some; [rewrite Hfst; apply np_unique_NoDup|].
    apply (list_elem_of_lookup_2 _ j), lookup_zip_with_Some. eauto.
  - intros c Hc. apply dict_lookup_None. rewrite Hfst.
    by rewrite elem_of_np_unique.
Qed.

Lemma Q_of_nat_pos n : 0 < n → (0 < Q_of_nat n)%Q.
Proof. intros Hn. unfold Q_of_nat, Qlt. simpl. lia. Qed.

Lemma Q_of_nat_lt n m : n < m → (Q_of_nat n < Q_of_nat m)%Q.
Proof. intros Hn. unfold Q_of_nat, Qlt. simpl. lia. Qed.

Lemma np_unique_length_pos y c : c ∈ y → 0 < length (np_unique y).
Proof.
  intros Hc. apply elem_of_np_unique in Hc.
  destruct (np_unique y); [by apply elem_of_nil in Hc|simpl; lia].
Qed.

Lemma Qdiv_pos (a b : Q) : (0 < a → 0 < b → 0 < a / b)%Q.
Proof.
  intros Ha Hb. apply Qlt_shift_div_l; [done|]. by rewrite Qmult_0_l.
Qed.

Lemma Qdiv_lt_anti (a k c1 c2 : Q) :
  (0 < a → 0 < k → 0 < c1 → c1 < c2 → a / (k * c2) < a / (k * c1))%Q.
Proof.
  intros Ha Hk Hc1 Hlt.
  assert (0 < c2)%Q as Hc2 by (by eapply Qlt_trans).
  assert (0 < k * c2)%Q as Hkc2 by (by apply Qmult_lt_0_compat).
  apply Qlt_shift_div_r; [done|].
  assert (a / (k * c1) * (k * c2) == a * (c2 / c1))%Q as ->.
  { field. split; intros H0; rewrite H0 in *; by eapply Qlt_irrefl. }
  rewrite <- (Qmult_1_r a) at 1. apply Qmult_lt_l; [done|].
  apply Qlt_shift_div_l; [done|]. by rewrite Qmult_1_l.
Qed.


(** ** Float64 rounding *)

Lemma np_round_dist (q : Q) : (Qabs (q - inject_Z (np_round q)) <= 1 # 2)%Q.
Proof.
  pose proof (Qfloor_le q) as Hlo. pose proof (Qlt_floor q) as Hhi.
  rewrite inject_Z_plus in Hhi. change (inject_Z 1) with 1%Q in Hhi.
  apply Qabs_Qle_condition. unfold np_round. cbv zeta.
  destruct (q - inject_Z (Qfloor q) ?= 1 # 2)%Q eqn:Hcmp.
  - apply Qeq_alt in Hcmp.
    destruct (Z.even (Qfloor q));
      rewrite ?inject_Z_plus; change (inject_Z 1) with 1%Q; split; lra.
  - apply Qlt_alt in Hcmp. split; lra.
  - apply Qgt_alt in Hcmp.
    rewrite inject_Z_plus. change (inject_Z 1) with 1%Q. split; lra.
Qed.

Lemma Qpower_2_pos (z : Z) : (0 < 2 ^ z)%Q.
Proof. by apply Qpower_0_lt. Qed.

Lemma Qpower_2_succ (z : Z) : (2 ^ (z + 1) == 2 * 2 ^ z)%Q.
Proof. rewrite Qpower_plus by done. change (2 ^ 1)%Q with 2%Q. ring. Qed.

Lemma Qpower_2_log2 (a : Z) :
  (0 < a)%Z →
  (2 ^ Z.log2 a <= inject_Z a)%Q ∧ (inject_Z a < 2 * 2 ^ Z.log2 a)%Q.
Proof.
  intros Ha. destruct (Z.log2_spec a Ha) as [Hlo Hhi].
  pose proof (Z.log2_nonneg a) as Hnn.
  rewrite <- Qpower_2_succ.
  change 2%Q with (inject_Z 2).
  rewrite <- !Zpower_Qpower by lia.
  rewrite <- Zle_Qle, <- Zlt_Qlt. split; [done|].
  by rewrite Z.add_1_r.
Qed.

(** [Qlog2 q] is the exponent of the leading bit of [q]. *)
Lemma Qlog2_spec (q : Q) :
  ¬ (q == 0)%Q →
  (2 ^ Qlog2 q <= Qabs q)%Q ∧ (Qabs q < 2 * 2 ^ Qlog2 q)%Q.
Proof.
  intros Hq. destruct q as [n d]. unfold Qlog2. cbn [Qnum Qden]. cbv zeta.
  assert (0 < Z.abs n)%Z as Hn.
  { destruct (decide (n = 0%Z)) as [->|]; [|lia]. by destruct Hq. }
  assert (Qabs (n # d) == inject_Z (Z.abs n) / inject_Z (Z.pos d))%Q as Habs.
  { unfold Qabs. by rewrite (Qmake_Qdiv (Z.abs n) d). }
  destruct (Qpower_2_log2 (Z.abs n) Hn) as [Ha1 Ha2].
  destruct (Qpower_2_log2 (Z.pos d) eq_refl) as [Hb1 Hb2].
  set (la := Z.log2 (Z.abs n)) in *. set (lb := Z.log2 (Z.pos d)) in *.
  pose proof (Qpower_2_pos la) as Hx. pose proof (Qpower_2_pos lb) as Hy.
  assert (0 < inject_Z (Z.pos d))%Q as HB by (unfold Qlt; simpl; lia).
  assert (2 ^ (la - lb) == 2 ^ la / 2 ^ lb)%Q as He0
    by (by apply Qpower_minus).
  assert (2 ^ (la - lb - 1) == 2 ^ la / (2 * 2 ^ lb))%Q as He1.
  { replace (la - lb - 1)%Z with (la - (lb + 1))%Z by lia.
    rewrite Qpower_minus, Qpower_2_succ by done. reflexivity. }
  set (A := inject_Z (Z.abs n)) in *. set (B := inject_Z (Z.pos d)) in *.
  set (x := (2 ^ la)%Q) in *. set (y := (2 ^ lb)%Q) in *.
  destruct (Qle_bool (2 ^ (la - lb)) (Qabs (n # d))) eqn:Hb.
  - apply Qle_bool_iff in Hb. split; [done|].
    rewrite Habs, He0. apply Qlt_shift_div_r; [done|].
    assert (2 * (x / y) * B == 2 * x * (B / y))%Q as ->
      by (field; lra).
    assert (1 <= B / y)%Q by (apply Qle_shift_div_l; lra).
    nra.
  - assert (Qabs (n # d) < 2 ^ (la - lb))%Q as Hlt.
    { apply Qnot_le_lt. intros Hle. apply Qle_bool_iff in Hle. congruence. }
    split.
    + rewrite Habs, He1. apply Qle_shift_div_l; [done|].
      assert (x / (2 * y) * B == x * (B / (2 * y)))%Q as ->
        by (field; lra).
      assert (B / (2 * y) <= 1)%Q by (apply Qle_shift_div_r; lra).
      nra.
    + replace (la - lb)%Z with (la - lb - 1 + 1)%Z in Hlt by lia.
      by rewrite Qpower_2_succ in Hlt.
Qed.

(** One rounding changes a number by at most 2^-53 of its size. *)
Lemma round64_error (q : Q) :
  (Qabs (round64 q - q) <= Qabs q * 2 ^ (-53))%Q.
Proof.
  unfold round64. destruct (Qeq_bool q 0) eqn:Hz.
  { apply Qeq_bool_iff in Hz. rewrite Hz. by vm_compute. }
  apply Qeq_bool_neq in Hz.
  destruct (Qlog2_spec q Hz) as [Hlo _].
  set (e := Qlog2 q) in *. set (u := (2 ^ (e - 52))%Q).
  pose proof (Qpower_2_pos (e - 52)) as Hu. fold u in Hu.
  pose proof (np_round_dist (q / u)) as Hd.
  set (r := inject_Z (np_round (q / u))) in *.
  assert (r * u - q == - ((q / u - r) * u))%Q as -> by (field; lra).
  rewrite Qabs_opp, Qabs_Qmult, (Qabs_pos u) by lra.
  assert (2 ^ e * 2 ^ (-53) == u * (1 # 2))%Q as Hue.
  { unfold u. replace (e - 52)%Z with (e + (-53) + 1)%Z by lia.
    rewrite Qpower_2_succ, Qpower_plus by done. ring. }
  apply Qle_trans with (u * (1 # 2))%Q.
  - rewrite (Qmult_comm u). apply Qmult_le_compat_r; [done|lra].
  - rewrite <- Hue. apply Qmult_le_compat_r; [done|by vm_compute].
Qed.

Lemma class_weights_f64_ok y :
  y ≠ [] →
  ∃ cw,
    class_weights_f64 y = Ok cw
    ∧ (∀ c, c ∈ y →
         cw !! c = Some (round64 (Q_of_nat (length y)
                                  / (Q_of_nat (length (np_unique y))
                                     * Q_of_nat (Counter y c)))%Q))
    ∧ (∀ c, c ∉ y → cw !! c = None).
Proof.
  intros Hne. unfold class_weights_f64.
  destruct (class_weights_ok y Hne) as (cw & -> & Hin & Hout).
  cbn [rbind]. eexists. split; [done|]. split.
  - intros c Hc. by rewrite lookup_fmap, Hin.
  - intros c Hc. by rewrite lookup_fmap, Hout.
Qed.

(** A rounded quotient [x] of [t / cnt], multiplied back by [cnt]: the
    exact product is within 2^-53 of [t], the rounded product within
    2^-51, relative to [t]. *)
Lemma rounded_quotient_product (x cnt t : Q) :
  (0 < cnt)%Q → (0 < t)%Q → (x * cnt == t)%Q →
  (Qabs (round64 x * cnt - t) <= t * 2 ^ (-53))%Q
  ∧ (Qabs (round64 (round64 x * cnt) - t) <= t * 2 ^ (-51))%Q.
Proof.
  intros Hcnt Ht Hx.
  assert (0 < x)%Q as Hxpos.
  { destruct (Qlt_le_dec 0 x) as [|Hle]; [done|]. exfalso.
    assert (x * cnt <= 0)%Q by nra. lra. }
  pose proof (round64_error x) as He.
  rewrite (Qabs_pos x) in He by lra.
  assert (Qabs (round64 x * cnt - t) <= t * 2 ^ (-53))%Q as H1.
  { assert (round64 x * cnt - t == (round64 x - x) * cnt)%Q as ->
      by (rewrite <- Hx; ring).
    rewrite Qabs_Qmult, (Qabs_pos cnt) by lra.
    assert (t * 2 ^ (-53) == x * 2 ^ (-53) * cnt)%Q as ->
      by (rewrite <- Hx; ring).
    apply Qmult_le_compat_r; [done|lra]. }
  split; [done|].
  pose proof (round64_error (round64 x * cnt)) as H2.
  set (p := (round64 x * cnt)%Q) in *.
  change (2 ^ (-53))%Q with (1 # 9007199254740992)%Q in *.
  change (2 ^ (-51))%Q with (1 # 2251799813685248)%Q.
  apply Qabs_Qle_condition in H1.
  assert (Qabs p == p)%Q as Hp by (apply Qabs_pos; lra).
  rewrite Hp in H2. apply Qabs_Qle_condition in H2.
  apply Qabs_Qle_condition. split; lra.
Qed.

(** C5 (amended). The dictionary holds float64 numbers: each weight is
    [len(y) / (number of distinct labels * occurrences)] rounded once. Its
    product with the number of occurrences is therefore
    [len(y) / number of distinct labels] up to rounding only: the exact
    product lies within a relative error of 2^-53 of that value and the
    float64 product within 2^-51. *)
Theorem class_weights_balanced (y : list Z) :
  y ≠ [] →
  ∃ cw,
    class_weights_f64 y = Ok cw
    ∧ ∀ c, c ∈ y →
        ∃ w,
          cw !! c = Some w
          ∧ w = round64 (Q_of_nat (length y)
                         / (Q_of_nat (size (list_to_set (C := gset Z) y))
                            * Q_of_nat (Counter y c)))%Q
          ∧ (Qabs (w * Q_of_nat (Counter y c)
                   - Q_of_nat (length y)
                     / Q_of_nat (size (list_to_set (C := gset Z) y)))
             <= Q_of_nat (length y)
                / Q_of_nat (size (list_to_set (C := gset Z) y))
                * 2 ^ (-53))%Q
          ∧ (Qabs (round64 (w * Q_of_nat (Counter y c))
                   - Q_of_nat (length y)
                     / Q_of_nat (size (list_to_set (C := gset Z) y)))
             <= Q_of_nat (length y)
                / Q_of_nat (size (list_to_set (C := gset Z) y))
                * 2 ^ (-51))%Q.
Proof.
  intros Hne. destruct (class_weights_f64_ok y Hne) as (cw & Hcw & Hin & _).
  exists cw. split; [done|]. intros c Hc. eexists. split; [by apply Hin|].
  rewrite <- np_unique_length. split; [done|].
  pose proof (Q_of_nat_pos _ (np_unique_length_pos y c Hc)) as Hk.
  pose proof (Q_of_nat_pos _ (proj1 (Counter_pos y c) Hc)) as Hcnt.
  assert (0 < Q_of_nat (length y))%Q as HN.
  { apply Q_of_nat_pos. destruct y; [done|simpl; lia]. }
  apply rounded_quotient_product; [done|by apply Qdiv_pos|].
  field. split; intros H0; rewrite H0 in *; by eapply Qlt_irrefl.
Qed.

(** C6. Every weight in the dictionary is positive, and of two labels the
    one with strictly fewer occurrences has the strictly larger weight. *)
Theorem class_weights_monotone (y : list Z) :
  y ≠ [] →
  ∃ cw,
    class_weights y = Ok cw
    ∧ (∀ c, c ∈ y → ∃ w, cw !! c = Some w)
    ∧ (∀ c w, cw !! c = Some w → (0 < w)%Q)
    ∧ ∀ c1 c2 w1 w2,
        cw !! c1 = Some w1 →
        cw !! c2 = Some w2 →
        Counter y c1 < Counter y c2 →
        (w2 < w1)%Q.
Proof.
  intros Hne. destruct (class_weights_ok y Hne) as (cw & Hcw & Hin & Hout).
  exists cw. split; [done|].
  assert (0 < Q_of_nat (length y))%Q as HN.
  { apply Q_of_nat_pos. destruct y; [done|simpl; lia]. }
  assert (∀ c w, cw !! c = Some w →
            c ∈ y ∧ w = (Q_of_nat (length y)
                         / (Q_of_nat (length (np_unique y))
                            * Q_of_nat (Counter y c)))%Q) as Hinv.
  { intros c w Hw. destruct (decide (c ∈ y)) as [Hc|Hc].
    - rewrite Hin in Hw by done. split; congruence.
    - rewrite Hout in Hw by done. discriminate. }
  split; [eauto|]. split.
  - intros c w [Hc ->]%Hinv. apply Qdiv_pos; [done|].
    apply Qmult_lt_0_compat; apply Q_of_nat_pos.
    + by eapply np_unique_length_pos.
    + by apply Counter_pos.
  - intros c1 c2 w1 w2 [Hc1 ->]%Hinv [Hc2 ->]%Hinv Hlt.
    apply Qdiv_lt_anti; [done| | |by apply Q_of_nat_lt].
    + apply Q_of_nat_pos. by eapply np_unique_length_pos.
    + apply Q_of_nat_pos. by apply Counter_pos.
Qed.

(** ** Rounding and the evaluation metrics *)

Lemma Qfloor_unit (q : Q) : (0 <= q)%Q → (q < 1)%Q → Qfloor q = 0%Z.
Proof.
  intros H0 H1.
  pose proof (Qfloor_le q) as Hlo. pose proof (Qlt_floor q) as Hhi.
  assert (inject_Z (Qfloor q) < inject_Z 1)%Q as Hlt
    by (eapply Qle_lt_trans; [exact Hlo|exact H1]).
  assert (inject_Z 0 < inject_Z (Qfloor q + 1))%Q as Hgt
    by (eapply Qle_lt_trans; [exact H0|exact Hhi]).
  rewrite <- Zlt_Qlt in Hlt, Hgt. lia.
Qed.

Lemma np_round_below (q : Q) : (0 <= q)%Q → (q < 1 # 2)%Q → np_round q = 0%Z.
Proof.
  intros H0 Hq. unfold np_round.
  rewrite Qfloor_unit; [|done|by eapply Qlt_trans].
  assert (q - inject_Z 0 == q)%Q as -> by ring.
  by rewrite (proj1 (Qlt_alt _ _) Hq).
Qed.

Lemma np_round_half (q : Q) : (q == 1 # 2)%Q → np_round q = 0%Z.
Proof.
  intros Hq. unfold np_round. rewrite (Qfloor_comp _ _ Hq).
  change (Qfloor (1 # 2)) with 0%Z.
  assert ((q - inject_Z 0 ?= 1 # 2)%Q = Eq) as ->; [|done].
  apply Qeq_alt. rewrite Hq. reflexivity.
Qed.

Lemma np_round_above (q : Q) : (1 # 2 < q)%Q → (q <= 1)%Q → np_round q = 1%Z.
Proof.
  intros Hq H1. destruct (Qlt_le_dec q 1) as [Hlt|Hge].
  - unfold np_round.
    rewrite Qfloor_unit;
      [|apply Qlt_le_weak, (Qlt_trans _ (1 # 2)); [reflexivity|done]|done].
    assert (q - inject_Z 0 == q)%Q as -> by ring.
    by rewrite (proj1 (Qgt_alt _ _) Hq).
  - assert (q == 1)%Q as Heq by (by apply Qle_antisym).
    unfold np_round. rewrite (Qfloor_comp _ _ Heq).
    change (Qfloor 1) with 1%Z.
    assert ((q - inject_Z 1 ?= 1 # 2)%Q = Lt) as ->; [|done].
    apply Qlt_alt. rewrite Heq. reflexivity.
Qed.

Lemma np_round_unit (q : Q) :
  (0 <= q)%Q → (q <= 1)%Q → np_round q = 0%Z ∨ np_round q = 1%Z.
Proof.
  intros H0 H1. destruct (Q_dec q (1 # 2)) as [[Hlt|Hgt]|Heq].
  - left. by apply np_round_below.
  - right. by apply np_round_above.
  - left. by apply np_round_half.
Qed.

Lemma Q_of_nat_S n : (Q_of_nat (S n) == 1 + Q_of_nat n)%Q.
Proof. unfold Q_of_nat, Qeq. simpl. lia. Qed.

Section evaluator_facts.
Context {feature : Type}.
Variable predict : feature → Q.

Lemma np_sum_y_pred (X_test : list feature) :
  (∀ x, (0 <= predict x)%Q ∧ (predict x <= 1)%Q) →
  (np_sum (y_pred_of predict X_test)
   == Q_of_nat
        (length (filter (λ x, np_round (predict x) = 1%Z) X_test)))%Q.
Proof.
  intros Hrange. induction X_test as [|x X_test IH]; [done|].
  unfold y_pred_of in *. rewrite fmap_cons, filter_cons.
  cbn [np_sum foldr]. fold (np_sum ((λ x, inject_Z (np_round (predict x)))
                                      <$> X_test)).
  rewrite IH. destruct (Hrange x) as [H0 H1].
  destruct (np_round_unit (predict x) H0 H1) as [Hr|Hr]; rewrite Hr.
  - rewrite decide_False by done. apply Qplus_0_l.
  - rewrite decide_True by done. cbn [length].
    by rewrite Q_of_nat_S.
Qed.

Lemma np_sum_score (X_test : list feature) (y_test : list Z) :
  (np_sum ((λ b : bool, if b then 1 else 0)%Q
           <$> zip_with (λ a b, Qeq_bool a (inject_Z b))
                 (y_pred_of predict X_test) y_test)
   == Q_of_nat
        (length (filter (λ p, np_round (predict p.1) = p.2)
                   (zip X_test y_test))))%Q.
Proof.
  revert y_test. induction X_test as [|x X_test IH]; intros [|v y_test];
    try done.
  unfold y_pred_of in *. cbn [fmap list_fmap zip_with np_sum foldr].
  fold (np_sum ((λ b : bool, if b then 1 else 0)%Q
           <$> zip_with (λ a b, Qeq_bool a (inject_Z b))
                 ((λ x, inject_Z (np_round (predict x))) <$> X_test)
                 y_test)).
  rewrite IH, filter_cons. cbn [fst snd].
  destruct (decide (np_round (predict x) = v)) as [->|Hne].
  - rewrite Qeq_bool_refl. cbn [length]. by rewrite Q_of_nat_S.
  - destruct (Qeq_bool _ _) eqn:Hb; [|apply Qplus_0_l].
    apply Qeq_bool_eq in Hb. unfold Qeq in Hb. simpl in Hb. lia.
Qed.
End evaluator_facts.

(** C9. With a model whose outputs are probabilities, cell 15 predicts 1
    for a probability above 0.5 and 0 for one below it (and 0 at exactly
    0.5); on a non-empty test set cell 16 prints the number of predicted
    ones divided by the number of test samples, and the number of
    predictions equal to their held-out label divided by the number of
    test samples. *)
Theorem evaluator_metrics {feature : Type} (predict : feature → Q)
    (X_test : list feature) (y_test : list Z) :
  (∀ x, (0 <= predict x)%Q ∧ (predict x <= 1)%Q) →
  length X_test = length y_test →
  X_test ≠ [] →
  (∀ i x, X_test !! i = Some x →
     ((1 # 2 < predict x)%Q → y_pred_of predict X_test !! i = Some 1%Q)
     ∧ ((predict x < 1 # 2)%Q → y_pred_of predict X_test !! i = Some 0%Q)
     ∧ ((predict x == 1 # 2)%Q → y_pred_of predict X_test !! i = Some 0%Q))
  ∧ (positive_fraction (y_pred_of predict X_test)
     == Q_of_nat (length (filter (λ x, np_round (predict x) = 1%Z) X_test))
        / Q_of_nat (length X_test))%Q
  ∧ ∃ acc,
      cell16_accuracy predict X_test y_test = Ok acc
      ∧ (acc
         == Q_of_nat (length (filter (λ p, np_round (predict p.1) = p.2)
                                (zip X_test y_test)))
            / Q_of_nat (length X_test))%Q.
Proof.
  intros Hrange Hlen Hne. split; [|split].
  - intros i x Hx. unfold y_pred_of. rewrite list_lookup_fmap, Hx.
    destruct (Hrange x) as [H0 H1]. cbn [fmap option_fmap option_map].
    split; [|split]; intros Hq.
    + by rewrite np_round_above.
    + by rewrite np_round_below.
    + by rewrite np_round_half.
  - unfold positive_fraction.
    rewrite np_sum_y_pred by done.
    unfold y_pred_of. by rewrite length_fmap.
  - unfold cell16_accuracy, accuracy_score.
    rewrite decide_True by (unfold y_pred_of; by rewrite length_fmap).
    rewrite decide_False by (unfold y_pred_of; by destruct X_test).
    eexists. split; [done|].
    rewrite np_sum_score.
    rewrite length_zip_with_l_eq
      by (unfold y_pred_of; by rewrite length_fmap).
    unfold y_pred_of. by rewrite length_fmap.
Qed.

(** ** The recorded scenario *)

Lemma Counter_two_le l a b : a ≠ b → Counter l a + Counter l b ≤ length l.
Proof.
  intros Hab. induction l as [|v l IH]; [done|].
  rewrite !Counter_cons. simpl.
  destruct (decide (v = a)), (decide (v = b)); lia || congruence.
Qed.

Lemma Counter_two_full l a b :
  a ≠ b →
  Counter l a + Counter l b = length l →
  ∀ x, x ∈ l → x = a ∨ x = b.
Proof.
  intros Hab. induction l as [|v l IH]; intros Hsum x Hx.
  { by apply elem_of_nil in Hx. }
  rewrite !Counter_cons in Hsum. simpl in Hsum.
  pose proof (Counter_two_le l a b Hab) as Hle.
  apply elem_of_cons in Hx as [->|Hx].
  - destruct (decide (v = a)), (decide (v = b)); auto; lia.
  - apply IH; [|done].
    destruct (decide (v = a)), (decide (v = b)); lia.
Qed.

Lemma two_labels_unique l a b :
  a ≠ b →
  0 < Counter l a →
  0 < Counter l b →
  Counter l a + Counter l b = length l →
  length (np_unique l) = 2.
Proof.
  intros Hab Ha Hb Hsum. rewrite np_unique_length.
  assert (list_to_set (C := gset Z) l = {[a; b]}) as ->.
  { apply set_eq. intros x. rewrite elem_of_list_to_set.
    rewrite elem_of_union, !elem_of_singleton. split.
    - by apply Counter_two_full.
    - intros [->| ->]; by apply Counter_pos. }
  rewrite size_union by set_solver. by rewrite !size_singleton.
Qed.

Lemma length_survivors {feature : Type} n target (d : list (feature * Z)) :
  n ≤ length d →
  length (survivors n target d) + Counter (take n d.*2) target = length d.
Proof.
  intros Hn. unfold survivors.
  rewrite length_app, length_drop, <- fmap_take.
  assert (length (filter (λ s : feature * Z, s.2 ≠ target) (take n d))
          + Counter (take n d).*2 target = n) as Hf; [|lia].
  rewrite <- (length_take_le d n) at 3 by done.
  induction (take n d) as [|s l IH]; [done|].
  rewrite filter_cons, fmap_cons, Counter_cons. simpl.
  destruct (decide (s.2 ≠ target)), (decide (s.2 = target));
    simpl; try lia; tauto.
Qed.

(** C1 (amended). In the scenario of the notebook (569 rows, 212 with
    label 0 and 357 with label 1, the loop visiting the first 200 rows),
    the injection leaves 212 minus the number of zero labels among the
    first 200 rows, and all 357 ones; 12 zeros remain only if the first
    200 labels are all zero, and with the 104 zeros of the recorded run
    108 zeros and 465 rows remain. For the recorded training split (372
    labels, 83 zeros and 289 ones) the class weights are 372/166 (about
    2.2410) for label 0 and 372/578 (about 0.6436) for label 1. *)
Theorem scenario_counts_and_weights {feature : Type}
    (X : list feature) (y y_train : list Z) :
  length X = length y →
  length y = 569 →
  Counter y 0 = 212 →
  Counter y 1 = 357 →
  length y_train = 372 →
  Counter y_train 0 = 83 →
  Counter y_train 1 = 289 →
  (∃ X' y',
     inject_imbalance X y = Ok (X', y')
     ∧ Counter y' 0 = 212 - Counter (take 200 y) 0
     ∧ Counter y' 1 = 357
     ∧ (Counter y' 0 = 12 ↔ take 200 y = replicate 200 0%Z)
     ∧ (Counter (take 200 y) 0 = 104 →
        Counter y' 0 = 108 ∧ length y' = 465))
  ∧ ∃ cw w0 w1,
      class_weights y_train = Ok cw
      ∧ cw !! 0%Z = Some w0 ∧ cw !! 1%Z = Some w1
      ∧ (w0 == 372 # 166)%Q ∧ (w1 == 372 # 578)%Q
      ∧ (2.2409 < w0)%Q ∧ (w0 < 2.2410)%Q
      ∧ (0.6435 < w1)%Q ∧ (w1 < 0.6436)%Q.
Proof.
  intros Hlen Hy H0 H1 Htr Ht0 Ht1. split.
  - assert (200 ≤ length y) as Hn by lia.
    change (inject_imbalance X y) with (inject 200 0 X y).
    eexists _, _. split; [by apply inject_zip|].
    pose proof (length_survivors 200 0 (zip X y)) as Hsz.
    rewrite length_zip, snd_zip in Hsz by lia.
    rewrite Counter_survivors_target, Counter_survivors_other by done.
    rewrite fmap_take, snd_zip, H0, H1 by lia.
    assert (length (take 200 y) = 200) as Htk by (rewrite length_take; lia).
    pose proof (Counter_le_length (take 200 y) 0) as Hle.
    pose proof (Counter_take_drop 200 y 0) as Hsplit.
    pose proof (Counter_full (take 200 y) 0) as Hfull.
    rewrite Htk in Hle, Hfull. rewrite length_fmap.
    split; [done|]. split; [done|]. split; [|lia].
    split; [intros ?; apply Hfull; lia|].
    intros Heq. apply Hfull in Heq. lia.
  - assert (y_train ≠ []) as Hne by (intros ->; discriminate).
    destruct (class_weights_ok y_train Hne) as (cw & Hcw & Hin & _).
    assert (0 ∈ y_train)%Z as Hi0 by (apply Counter_pos; lia).
    assert (1 ∈ y_train)%Z as Hi1 by (apply Counter_pos; lia).
    pose proof (Hin _ Hi0) as Hw0. pose proof (Hin _ Hi1) as Hw1.
    rewrite (two_labels_unique y_train 0 1), Htr in Hw0, Hw1 by (done || lia).
    rewrite Ht0 in Hw0. rewrite Ht1 in Hw1.
    eexists cw, _, _. split; [done|]. split; [exact Hw0|].
    split; [exact Hw1|]. by vm_compute.
Qed.

(** ** Concrete runs *)

(** C1, counterexample. A table with the counts of the notebook's
    scenario on which cells 5-6 leave 108 rows of label 0, not 12. *)
Lemma scenario_leaves_108_zeros :
  length scenario_X = length scenario_y
  ∧ Counter scenario_y 0 = 212
  ∧ Counter scenario_y 1 = 357
  ∧ ∃ X' y',
      inject_imbalance scenario_X scenario_y = Ok (X', y')
      ∧ Counter y' 0 = 108
      ∧ Counter y' 1 = 357
      ∧ Counter y' 0 ≠ 12.
Proof.
  split; [reflexivity|]. split; [reflexivity|]. split; [reflexivity|].
  eexists _, _. split; [vm_compute; reflexivity|].
  split; [reflexivity|]. split; [reflexivity|].
  vm_compute. discriminate.
Qed.

(** C2, counterexample. One row of label 1 followed by 200 rows of label
    0: the loop visits rows 0 to 199 and leaves the last zero in place,
    whereas removing the first 200 zeros leaves only the first row. *)
Lemma inject_differs_from_first_matching :
  let X := seq 0 201 in
  let y := 1%Z :: replicate 200 0%Z in
  inject_imbalance X y = Ok ([0; 200], [1; 0]%Z)
  ∧ remove_first_matching 200 0 (zip X y) = [(0, 1%Z)]
  ∧ inject_imbalance X y
    ≠ Ok ((remove_first_matching 200 0 (zip X y)).*1,
          (remove_first_matching 200 0 (zip X y)).*2).
Proof.
  vm_compute. split; [reflexivity|]. split; [reflexivity|]. discriminate.
Qed.

(** C3, counterexample. 100 rows of label 1 followed by 200 rows of label
    0 and a removal count of 200: the zeros drop from 200 to 100, not by
    200. *)
Lemma inject_reduces_by_less :
  let X := seq 0 300 in
  let y := replicate 100 1%Z ++ replicate 200 0%Z in
  Counter y 0 = 200
  ∧ ∃ X' y',
      inject_imbalance X y = Ok (X', y')
      ∧ Counter y' 0 = 100
      ∧ Counter y' 0 ≠ Counter y 0 - 200.
Proof.
  split; [reflexivity|].
  eexists _, _. split; [vm_compute; reflexivity|].
  split; [reflexivity|]. vm_compute. discriminate.
Qed.


(** The scenario theorem on [scenario_X], [scenario_y] and a training
    column of 83 zeros and 289 ones. *)
Lemma scenario_counts_and_weights_witness :
  (∃ X' y',
     inject_imbalance scenario_X scenario_y = Ok (X', y')
     ∧ Counter y' 0 = 108 ∧ length y' = 465)
  ∧ ∃ cw w0,
      class_weights (replicate 83 0%Z ++ replicate 289 1%Z) = Ok cw
      ∧ cw !! 0%Z = Some w0 ∧ (w0 == 372 # 166)%Q.
Proof.
  destruct (scenario_counts_and_weights scenario_X scenario_y
              (replicate 83 0%Z ++ replicate 289 1%Z))
    as [(X' & y' & Hinj & _ & _ & _ & Hrec)
        (cw & w0 & w1 & Hcw & Hw0 & _ & Hq0 & _)];
    try (vm_compute; reflexivity).
  split.
  - exists X', y'. split; [exact Hinj|]. apply Hrec. vm_compute. reflexivity.
  - exists cw, w0. split; [exact Hcw|]. split; [exact Hw0|exact Hq0].
Defined.

(** Four rows, two of them visited: only the visited zero is removed. *)
Lemma inject_removes_scanned_matches_witness :
  inject 2 0 [10; 11; 12; 13] [0; 1; 0; 0]%Z = Ok ([11; 12; 13], [1; 0; 0]%Z).
Proof.
  exact (proj1 (inject_removes_scanned_matches 2 0
                  [10; 11; 12; 13] [0; 1; 0; 0]%Z
                  eq_refl ltac:(simpl; lia))).
Defined.

(** Same four rows: of three zeros two are left, the single one stays. *)
Lemma inject_counts_witness :
  ∃ X' y',
    inject 2 0 [10; 11; 12; 13] [0; 1; 0; 0]%Z = Ok (X', y')
    ∧ Counter y' 0 = 2 ∧ Counter y' 1 = 1.
Proof.
  destruct (inject_counts 2 0 [10; 11; 12; 13] [0; 1; 0; 0]%Z
              eq_refl ltac:(simpl; lia))
    as (X' & y' & Hinj & H0 & _ & _ & Hother).
  exists X', y'. split; [exact Hinj|]. split.
  - rewrite H0. reflexivity.
  - rewrite (Hother 1%Z) by discriminate. reflexivity.
Defined.


(** Same four rows: the filtered lists stay aligned. *)
Lemma inject_keeps_alignment_witness :
  ∃ X' y',
    inject 2 0 [10; 11; 12; 13] [0; 1; 0; 0]%Z = Ok (X', y')
    ∧ length X' = length y'
    ∧ sublist (zip X' y') (zip [10; 11; 12; 13] [0; 1; 0; 0]%Z).
Proof.
  destruct (inject_keeps_alignment 2 0 [10; 11; 12; 13] [0; 1; 0; 0]%Z
              eq_refl ltac:(simpl; lia))
    as (Xb & yb & X' & y' & _ & _ & Hinj & Hlen & Hsub & _).
  exists X', y'. split; [exact Hinj|]. split; [exact Hlen|exact Hsub].
Defined.

(** The 465 rows left of the scenario table, split with the reversing
    permutation: 372 training and 93 test rows. *)
Lemma split_sizes_after_injection_witness :
  ∃ X_train X_test y_train y_test,
    cell8 (λ m, reverse (seq 0 m))
      (seq 104 465)
      (replicate 96 1%Z ++ replicate 108 0%Z ++ replicate 261 1%Z)
    = Ok (X_train, X_test, y_train, y_test)
    ∧ length X_train = 372 ∧ length X_test = 93.
Proof.
  destruct (split_sizes_after_injection (λ m, reverse (seq 0 m)) 200 0
              scenario_X (seq 104 465) scenario_y
              (replicate 96 1%Z ++ replicate 108 0%Z ++ replicate 261 1%Z))
    as (X_train & X_test & y_train & y_test & Hsplit & _ & _ & _ & _ & _ & Hrec).
  - intros m. apply reverse_Permutation.
  - reflexivity.
  - vm_compute. reflexivity.
  - apply Nat.leb_le. vm_compute. reflexivity.
  - exists X_train, X_test, y_train, y_test. split; [exact Hsplit|].
    apply Hrec. vm_compute. reflexivity.
Defined.


(** C5, counterexample. Fifteen labels, two zeros and thirteen ones: the
    float64 weights are 3.75 and 0.5769230769230769; their products with
    the counts are 7.5 and 7.499999999999999, exactly and in float64
    alike, so the two classes do not have the same product. *)
Lemma class_weights_products_differ :
  ∃ cw w0 w1,
    class_weights_f64 (replicate 2 0%Z ++ replicate 13 1%Z) = Ok cw
    ∧ cw !! 0%Z = Some w0 ∧ cw !! 1%Z = Some w1
    ∧ (w0 == 15 # 4)%Q
    ∧ (w1 == 2598230554252209 # 4503599627370496)%Q
    ∧ (round64 (w0 * 2) == 15 # 2)%Q
    ∧ (round64 (w1 * 13) == 8444249301319679 # 1125899906842624)%Q
    ∧ ¬ (w0 * 2 == w1 * 13)%Q
    ∧ ¬ (round64 (w0 * 2) == round64 (w1 * 13))%Q.
Proof.
  eexists _, _, _. split; [vm_compute; reflexivity|].
  split; [vm_compute; reflexivity|]. split; [vm_compute; reflexivity|].
  split; [by vm_compute|]. split; [by vm_compute|].
  split; [by vm_compute|]. split; [by vm_compute|].
  split; apply Qeq_bool_neq; vm_compute; reflexivity.
Qed.

(** The same fifteen labels: the weight of label 1 times thirteen lies
    within 7.5 * 2^-53 of 7.5. *)
Lemma class_weights_balanced_witness :
  ∃ (cw : gmap Z Q) (w : Q),
    class_weights_f64 (replicate 2 0%Z ++ replicate 13 1%Z) = Ok cw
    ∧ cw !! 1%Z = Some w
    ∧ (Qabs (w * 13 - (15 # 2)) <= (15 # 2) * 2 ^ (-53))%Q.
Proof.
  destruct (class_weights_balanced (replicate 2 0%Z ++ replicate 13 1%Z))
    as (cw & Hcw & Hin); [discriminate|].
  destruct (Hin 1%Z) as (w & Hw & _ & Hprod & _);
    [apply Counter_pos; vm_compute; lia|].
  exists cw, w. split; [exact Hcw|]. split; [exact Hw|].
  exact Hprod.
Defined.

(** Same labels: the rarer label 0 has the larger weight. *)
Lemma class_weights_monotone_witness :
  ∃ cw w0 w1,
    class_weights [1; 0; 1; 1; 0; 1; 1]%Z = Ok cw
    ∧ cw !! 0%Z = Some w0 ∧ cw !! 1%Z = Some w1
    ∧ (0 < w1)%Q ∧ (w1 < w0)%Q.
Proof.
  destruct (class_weights_monotone [1; 0; 1; 1; 0; 1; 1]%Z)
    as (cw & Hcw & Hin & Hpos & Hmono); [discriminate|].
  destruct (Hin 0%Z) as [w0 Hw0]; [apply Counter_pos; vm_compute; lia|].
  destruct (Hin 1%Z) as [w1 Hw1]; [apply Counter_pos; vm_compute; lia|].
  exists cw, w0, w1. split; [exact Hcw|]. split; [exact Hw0|].
  split; [exact Hw1|]. split; [by eapply Hpos|].
  eapply Hmono; [exact Hw0|exact Hw1|]. vm_compute. lia.
Defined.

(** Four test rows, two predicted 1, three predictions correct. *)
Lemma evaluator_metrics_witness :
  let predict := λ x : nat, if decide (x < 2) then 0.3%Q else 0.9%Q in
  (positive_fraction (y_pred_of predict (seq 0 4)) == 1 # 2)%Q
  ∧ ∃ acc,
      cell16_accuracy predict (seq 0 4) [0; 1; 1; 1]%Z = Ok acc
      ∧ (acc == 3 # 4)%Q.
Proof.
  intros predict.
  destruct (evaluator_metrics predict (seq 0 4) [0; 1; 1; 1]%Z)
    as (_ & Hfrac & acc & Hacc & Hval).
  - intros x. unfold predict. destruct (decide (x < 2)); by vm_compute.
  - reflexivity.
  - discriminate.
  - split; [rewrite Hfrac; vm_compute; reflexivity|].
    exists acc. split; [exact Hacc|]. rewrite Hval. vm_compute. reflexivity.
Defined.


(** ** More on cells 5 and 6 *)

Lemma for_each_fixed {S : Type} (body : S → nat → result S) idx (st : S) :
  Forall (λ i, body st i = Ok st) idx → for_each body idx st = Ok st.
Proof.
  induction 1 as [|i idx Hi _ IH]; simpl; [done|]. by rewrite Hi.
Qed.

Lemma omap_id_Some {A : Type} (l : list A) : omap id (Some <$> l) = l.
Proof. induction l; simpl; [done|]. by f_equal. Qed.

Section injection_more.
Context {feature : Type}.
Implicit Types (X : list feature) (y : list Z).
Implicit Types (Xs : list (option feature)) (ys : list (option Z)).

Lemma blank_row_skip target Xs ys i v :
  ys !! i = Some v → v ≠ Some target →
  blank_row target (Xs, ys) i = Ok (Xs, ys).
Proof.
  intros Hi Hv. unfold blank_row. rewrite Hi. by rewrite decide_False.
Qed.

Lemma blank_rows_fixed n target Xs ys :
  (∀ i, i < n → ∃ v, ys !! i = Some v ∧ v ≠ Some target) →
  blank_rows n target (Xs, ys) = Ok (Xs, ys).
Proof.
  intros Hys. apply for_each_fixed, Forall_forall. intros i Hi.
  apply elem_of_seq in Hi. destruct (Hys i) as (v & Hv & Hne); [lia|].
  by eapply blank_row_skip.
Qed.

(** What any run of the loop body over a list of indices leaves in the
    label list: its length is kept, a slot is either kept or blanked, and
    no visited slot still holds the target label. *)
Lemma for_each_blank_row_visited target idx :
  ∀ (st st' : @table feature),
    for_each (blank_row target) idx st = Ok st' →
    length st'.2 = length st.2
    ∧ (∀ j, st'.2 !! j = st.2 !! j ∨ st'.2 !! j = Some None)
    ∧ Forall (λ i, ∃ v, st'.2 !! i = Some v ∧ v ≠ Some target) idx.
Proof.
  induction idx as [|i idx IH]; intros [Xs ys] st' Hrun;
    cbn [for_each] in Hrun.
  { injection Hrun as <-. split; [done|]. split; [by left|constructor]. }
  destruct (blank_row target (Xs, ys) i) as [st1|e] eqn:Hstep;
    cbn [rbind] in Hrun; [|done].
  destruct (IH st1 st' Hrun) as (Hlen & Hmono & Hvis).
  unfold blank_row in Hstep.
  destruct (ys !! i) as [v|] eqn:Hi; [|done].
  destruct (decide (v = Some target)) as [->|Hne].
  - destruct (decide (i < length Xs)); [|done]. injection Hstep as <-.
    simpl in *. rewrite length_insert in Hlen.
    assert (i < length ys) as Hlt by (by eapply lookup_lt_Some).
    split; [done|]. split.
    + intros j. destruct (Hmono j) as [Hj|Hj]; [|by right].
      destruct (decide (i = j)) as [<-|Hij].
      * right. by rewrite Hj, list_lookup_insert_eq.
      * left. by rewrite Hj, list_lookup_insert_ne.
    + constructor; [|done].
      destruct (Hmono i) as [Hj|Hj]; rewrite Hj.
      * rewrite list_lookup_insert_eq by done. by eexists.
      * by eexists.
  - injection Hstep as <-. simpl in *.
    split; [done|]. split; [done|]. constructor; [|done].
    destruct (Hmono i) as [Hj|Hj]; rewrite Hj.
    + rewrite Hi. by eexists.
    + by eexists.
Qed.

(** X1. When none of the first [n] labels is the target (in particular
    for [n = 0]), cells 5-6 return both lists unchanged, whether or not
    the two lists have the same length. *)
Theorem inject_no_match_identity n target X y :
  n ≤ length y →
  target ∉ take n y →
  inject n target X y = Ok (X, y).
Proof.
  intros Hn Hfree. unfold inject. rewrite blank_rows_fixed.
  - cbn [rbind]. unfold cell6. cbn [fst snd]. by rewrite !omap_id_Some.
  - intros i Hi. destruct (lookup_lt_is_Some_2 y i) as [v Hv]; [lia|].
    exists (Some v). rewrite list_lookup_fmap, Hv. split; [done|].
    intros [= ->]. apply Hfree.
    apply (list_elem_of_lookup_2 _ i). by rewrite lookup_take_lt.
Qed.

(** X2. On aligned lists with at least [n] rows both output lists are
    shorter than the input by exactly the number of target labels among
    the first [n] labels. *)
Theorem inject_length n target X y :
  length X = length y →
  n ≤ length y →
  ∃ X' y',
    inject n target X y = Ok (X', y')
    ∧ length y' + Counter (take n y) target = length y
    ∧ length X' + Counter (take n y) target = length X.
Proof.
  intros Hlen Hn. eexists _, _. split; [by apply inject_zip|].
  pose proof (length_survivors n target (zip X y)) as Hsz.
  rewrite length_zip, snd_zip in Hsz by lia.
  rewrite !length_fmap. lia.
Qed.

(** X3. With [k] the number of scanned rows that survive, the first [k]
    output labels are free of the target label and the output rows from
    position [k] on are the input rows from position [n] on, features and
    labels alike: rows the loop never visits are never touched. *)
Theorem inject_clean_prefix_same_tail n target X y :
  length X = length y →
  n ≤ length y →
  ∃ X' y',
    inject n target X y = Ok (X', y')
    ∧ (target ∉ take (n - Counter (take n y) target) y')
    ∧ drop (n - Counter (take n y) target) y' = drop n y
    ∧ drop (n - Counter (take n y) target) X' = drop n X.
Proof.
  intros Hlen Hn. eexists _, _. split; [by apply inject_zip|].
  set (kept := filter (λ s : feature * Z, s.2 ≠ target) (take n (zip X y))).
  assert (length kept = n - Counter (take n y) target) as Hk.
  { pose proof (length_survivors n target (zip X y)) as Hsz.
    rewrite length_zip, snd_zip in Hsz by lia.
    unfold survivors in Hsz. fold kept in Hsz.
    rewrite length_app, length_drop, length_zip in Hsz. lia. }
  unfold survivors. fold kept. rewrite !fmap_app, <- Hk.
  rewrite <- (length_fmap snd kept) at 1 2.
  rewrite take_app_length, drop_app_length.
  rewrite <- (length_fmap fst kept), drop_app_length.
  rewrite !fmap_drop, fst_zip, snd_zip by lia.
  split; [|done].
  intros Hin. apply list_elem_of_fmap in Hin as (s & -> & Hs).
  by apply list_elem_of_filter in Hs as [Hs _].
Qed.

(** X4. Running cell 5 again on the lists it produced changes nothing: a
    blanked slot compares unequal to the label, so the loop is idempotent
    on any pair of lists on which it completes. *)
Theorem cell5_idempotent n target (st st' : @table feature) :
  blank_rows n target st = Ok st' →
  blank_rows n target st' = Ok st'.
Proof.
  intros Hrun.
  destruct (for_each_blank_row_visited target (seq 0 n) st st' Hrun)
    as (_ & _ & Hvis).
  destruct st' as [Xs ys]. apply blank_rows_fixed. intros i Hi.
  eapply Forall_forall in Hvis; [exact Hvis|]. apply elem_of_seq. lia.
Qed.
End injection_more.

(** ** More on cell 8 *)

Lemma take_rows_Ok_fmap {A : Type} (a : list A) ind r :
  take_rows a ind = Ok r → Some <$> r = (λ i, a !! i) <$> ind.
Proof.
  unfold take_rows. revert r. induction ind as [|i ind IH]; intros r; simpl.
  { by intros [= <-]. }
  destruct (a !! i) as [v|]; cbn [rbind]; [|done].
  destruct (map_result _ ind) as [r'|e]; cbn [rbind]; [|done].
  intros [= <-]. simpl. f_equal. by apply IH.
Qed.

Lemma lookup_fmap_seq {A : Type} (a : list A) :
  (λ i, a !! i) <$> seq 0 (length a) = Some <$> a.
Proof.
  apply list_eq. intros i. rewrite !list_lookup_fmap.
  destruct (decide (i < length a)) as [Hi|Hi].
  - rewrite lookup_seq_lt by done. simpl.
    by destruct (lookup_lt_is_Some_2 a i Hi) as [v ->].
  - rewrite lookup_seq_ge, lookup_ge_None_2 by lia. done.
Qed.

Lemma rows_of_permutation {A : Type} (a : list A) ind r :
  Some <$> r = (λ i, a !! i) <$> ind →
  ind ≡ₚ seq 0 (length a) →
  r ≡ₚ a.
Proof.
  intros Hr Hind.
  rewrite <- (omap_id_Some r), <- (omap_id_Some a), Hr.
  apply omap_Permutation. rewrite <- lookup_fmap_seq.
  by apply fmap_Permutation.
Qed.

Lemma zip_rows {A B : Type} (a : list A) (b : list B) ind ra rb :
  Some <$> ra = (λ i, a !! i) <$> ind →
  Some <$> rb = (λ i, b !! i) <$> ind →
  Some <$> zip ra rb = (λ i, zip a b !! i) <$> ind.
Proof.
  revert ra rb. induction ind as [|i ind IH]; intros [|x ra] [|v rb];
    simpl; try done.
  intros [= Hx Hra] [= Hv Hrb]. f_equal; [|by apply IH].
  symmetry. apply lookup_zip_with_Some. eauto.
Qed.

Lemma split_indices (p : list nat) a n :
  length p = n →
  take (n - a) (drop a p) ++ take a p ≡ₚ p.
Proof.
  intros Hp. rewrite (comm app), take_take_drop.
  apply reflexive_eq, take_ge. lia.
Qed.

Lemma Counter_Permutation l1 l2 c : l1 ≡ₚ l2 → Counter l1 c = Counter l2 c.
Proof. intros Hp. unfold Counter. by rewrite Hp. Qed.

Section splitter_more.
Context {feature : Type}.
Variable permutation : nat → list nat.
Hypothesis permutation_spec : ∀ n, permutation n ≡ₚ seq 0 n.

Lemma train_test_split_rows ts (X X_train X_test : list feature)
    (y y_train y_test : list Z) :
  train_test_split permutation ts X y
  = Ok (X_train, X_test, y_train, y_test) →
  length X = length y
  ∧ ∃ ind_train ind_test,
      ind_train ++ ind_test ≡ₚ seq 0 (length X)
      ∧ Some <$> X_train = (λ i, X !! i) <$> ind_train
      ∧ Some <$> X_test = (λ i, X !! i) <$> ind_test
      ∧ Some <$> y_train = (λ i, y !! i) <$> ind_train
      ∧ Some <$> y_test = (λ i, y !! i) <$> ind_test.
Proof using permutation_spec.
  unfold train_test_split. intros Hsplit.
  destruct (decide (length X = length y)) as [Hlen|]; [|done].
  split; [done|]. cbv zeta in Hsplit.
  destruct (decide (n_train_of ts (length X) = 0)) as [|_]; [done|].
  set (n := length X) in *.
  set (ind_test := take (n_test_of ts n) (permutation n)) in *.
  set (ind_train := take (n_train_of ts n)
                      (drop (n_test_of ts n) (permutation n))) in *.
  destruct (take_rows X ind_train) as [r1|] eqn:H1; [|done].
  destruct (take_rows X ind_test) as [r2|] eqn:H2; [|done].
  destruct (take_rows y ind_train) as [r3|] eqn:H3; [|done].
  destruct (take_rows y ind_test) as [r4|] eqn:H4; [|done].
  cbn [rbind] in Hsplit. injection Hsplit as <- <- <- <-.
  exists ind_train, ind_test.
  split; [|by auto using take_rows_Ok_fmap].
  rewrite <- (permutation_spec n). apply split_indices.
  by rewrite permutation_spec, length_seq.
Qed.

Lemma train_test_split_pairs ts (X X_train X_test : list feature)
    (y y_train y_test : list Z) :
  train_test_split permutation ts X y
  = Ok (X_train, X_test, y_train, y_test) →
  zip X_train y_train ++ zip X_test y_test ≡ₚ zip X y.
Proof using permutation_spec.
  intros (Hlen & ind_train & ind_test & Hind & HX1 & HX2 & Hy1 & Hy2)
    %train_test_split_rows.
  apply (rows_of_permutation _ (ind_train ++ ind_test)).
  - rewrite !fmap_app. f_equal; by apply zip_rows.
  - rewrite length_zip. by replace (length X `min` length y)
      with (length X) by lia.
Qed.

(** X5. Whatever permutation the generator draws, the split of cell 8
    loses and repeats nothing and keeps each label with its feature row:
    the training pairs followed by the test pairs are a permutation of
    the input pairs (and so are the features and the labels alone). *)
Theorem train_test_split_partition (X X_train X_test : list feature)
    (y y_train y_test : list Z) :
  cell8 permutation X y = Ok (X_train, X_test, y_train, y_test) →
  zip X_train y_train ++ zip X_test y_test ≡ₚ zip X y
  ∧ X_train ++ X_test ≡ₚ X
  ∧ y_train ++ y_test ≡ₚ y.
Proof using permutation_spec.
  intros Hsplit. split; [by eapply train_test_split_pairs|].
  revert Hsplit.
  intros (Hlen & ind_train & ind_test & Hind & HX1 & HX2 & Hy1 & Hy2)
    %train_test_split_rows.
  split.
  - apply (rows_of_permutation _ (ind_train ++ ind_test)); [|done].
    rewrite !fmap_app. by f_equal.
  - apply (rows_of_permutation _ (ind_train ++ ind_test));
      [|by rewrite <- Hlen].
    rewrite !fmap_app. by f_equal.
Qed.

(** X6. For every label the occurrences in the training labels and in the
    test labels add up to the occurrences in the labels given to the
    split. *)
Theorem train_test_split_counts (X X_train X_test : list feature)
    (y y_train y_test : list Z) c :
  cell8 permutation X y = Ok (X_train, X_test, y_train, y_test) →
  Counter y_train c + Counter y_test c = Counter y c.
Proof using permutation_spec.
  intros (Hlen & ind_train & ind_test & Hind & _ & _ & Hy1 & Hy2)
    %train_test_split_rows.
  rewrite <- Counter_app. apply Counter_Permutation.
  apply (rows_of_permutation _ (ind_train ++ ind_test));
    [|by rewrite <- Hlen].
  rewrite !fmap_app. by f_equal.
Qed.
End splitter_more.

(** X7. With [test_size = 0.2] the test part has [ceil(n / 5)] rows and
    the training part [floor(4 n / 5)] rows. *)
Theorem split_sizes_closed_form n :
  n_test_of test_size n = (n + 4) / 5
  ∧ n_train_of test_size n = (4 * n) / 5.
Proof.
  pose proof (n_test_of_fifth n) as Hb. unfold n_train_of.
  set (t := n_test_of test_size n) in *.
  assert (t = (n + 4) / 5) as Ht.
  { apply (Nat.div_unique _ _ _ (n + 4 - 5 * t)); lia. }
  split; [done|].
  apply (Nat.div_unique _ _ _ (5 * t - n)); lia.
Qed.

(** ** More on cells 10 and 11 *)

Lemma np_unique_ext (a b : list Z) :
  (∀ x, x ∈ a ↔ x ∈ b) → np_unique a = np_unique b.
Proof.
  intros Hab. apply (StronglySorted_unique_strong Z.lt).
  - intros x1 x2 _ _ ? ?. lia.
  - apply np_unique_sorted.
  - apply np_unique_sorted.
  - apply NoDup_Permutation; [apply np_unique_NoDup..|].
    intros x. by rewrite !elem_of_np_unique.
Qed.

(** X8. [np_unique] lists the values of its argument in strictly
    increasing order, each once, and depends only on which values occur:
    two arrays with the same values, in any order and multiplicity, have
    the same result. *)
Theorem np_unique_canonical (a : list Z) :
  StronglySorted Z.lt (np_unique a)
  ∧ (∀ x, x ∈ np_unique a ↔ x ∈ a)
  ∧ ∀ b : list Z, (∀ x, x ∈ a ↔ x ∈ b) → np_unique a = np_unique b.
Proof.
  split; [apply np_unique_sorted|].
  split; [intros x; apply elem_of_np_unique|].
  apply np_unique_ext.
Qed.

Lemma np_unique_length_Permutation y1 y2 :
  y1 ≡ₚ y2 → length (np_unique y1) = length (np_unique y2).
Proof.
  intros Hp. f_equal. apply np_unique_ext. intros x. by rewrite Hp.
Qed.

(** X9. The weights depend on the training labels only through their
    counts: reordering the labels gives the same dictionary. *)
Theorem class_weights_Permutation (y1 y2 : list Z) :
  y1 ≡ₚ y2 → class_weights y1 = class_weights y2.
Proof.
  intros Hp. pose proof (Permutation_length Hp) as Hlen.
  destruct (decide (y1 = [])) as [->|Hne1].
  { by rewrite (nil_length_inv y2). }
  assert (y2 ≠ []) as Hne2 by (intros ->; by destruct y1).
  destruct (class_weights_ok y1 Hne1) as (cw1 & -> & Hin1 & Hout1).
  destruct (class_weights_ok y2 Hne2) as (cw2 & -> & Hin2 & Hout2).
  f_equal. apply map_eq. intros c.
  destruct (decide (c ∈ y1)) as [Hc|Hc].
  - rewrite Hin1, Hin2 by (by rewrite <- ?Hp).
    rewrite (Permutation_length Hp), (np_unique_length_Permutation _ _ Hp).
    by rewrite (Counter_Permutation _ _ c Hp).
  - rewrite Hout1, Hout2 by (by rewrite <- ?Hp). done.
Qed.

Lemma np_sum_cons (q : Q) l : np_sum (q :: l) = (q + np_sum l)%Q.
Proof. done. Qed.

Lemma np_sum_ext {A : Type} (f g : A → Q) (l : list A) :
  (∀ x, x ∈ l → f x == g x)%Q →
  (np_sum (f <$> l) == np_sum (g <$> l))%Q.
Proof.
  induction l as [|x l IH]; intros Hfg; [done|].
  rewrite !fmap_cons, !np_sum_cons. apply Qplus_comp.
  - apply Hfg, list_elem_of_here.
  - apply IH. intros z Hz. by apply Hfg, list_elem_of_further.
Qed.

Lemma np_sum_plus {A : Type} (f g : A → Q) (l : list A) :
  (np_sum ((λ x, f x + g x) <$> l)
   == np_sum (f <$> l) + np_sum (g <$> l))%Q.
Proof.
  induction l as [|x l IH]; [done|].
  rewrite !fmap_cons, !np_sum_cons, IH. ring.
Qed.

Lemma np_sum_const {A : Type} (q : Q) (l : list A) :
  (np_sum ((λ _, q) <$> l) == Q_of_nat (length l) * q)%Q.
Proof.
  induction l as [|x l IH].
  { change (0 == 0 * q)%Q. ring. }
  rewrite fmap_cons, np_sum_cons, IH. cbn [length].
  rewrite Q_of_nat_S. ring.
Qed.

Lemma np_sum_indicator (f : Z → Q) (v : Z) (cl : list Z) :
  NoDup cl →
  (np_sum ((λ c, (if decide (v = c) then 1 else 0) * f c) <$> cl)
   == if decide (v ∈ cl) then f v else 0)%Q.
Proof.
  induction 1 as [|c cl Hc _ IH]; [done|].
  rewrite fmap_cons, np_sum_cons, IH.
  destruct (decide (v = c)) as [<-|Hvc].
  - rewrite decide_False by done.
    rewrite decide_True by apply list_elem_of_here. ring.
  - destruct (decide (v ∈ cl)) as [Hin|Hin].
    + rewrite decide_True by (by apply list_elem_of_further). ring.
    + rewrite decide_False; [ring|].
      intros [?|?]%elem_of_cons; done.
Qed.

Lemma Q_of_nat_add n m : (Q_of_nat (n + m) == Q_of_nat n + Q_of_nat m)%Q.
Proof. unfold Q_of_nat. by rewrite Nat2Z.inj_add, inject_Z_plus. Qed.

(** Summing over the samples is summing over the classes, each weighted
    by its number of occurrences. *)
Lemma np_sum_by_class (f : Z → Q) (y cl : list Z) :
  NoDup cl →
  (∀ v, v ∈ y → v ∈ cl) →
  (np_sum (f <$> y)
   == np_sum ((λ c, Q_of_nat (Counter y c) * f c) <$> cl))%Q.
Proof.
  intros Hnd. induction y as [|v y IH]; intros Hin.
  - rewrite (np_sum_ext (λ c, Q_of_nat (Counter [] c) * f c)%Q
               (λ _, 0%Q) cl).
    + rewrite np_sum_const. change (0 == Q_of_nat (length cl) * 0)%Q. ring.
    + intros c _. change (0 * f c == 0)%Q. ring.
  - rewrite fmap_cons, np_sum_cons.
    rewrite (np_sum_ext (λ c, Q_of_nat (Counter (v :: y) c) * f c)%Q
      (λ c, (if decide (v = c) then 1 else 0) * f c
            + Q_of_nat (Counter y c) * f c)%Q cl).
    + rewrite np_sum_plus, np_sum_indicator by done.
      rewrite decide_True by apply Hin, list_elem_of_here.
      rewrite <- IH; [done|].
      intros z Hz. by apply Hin, list_elem_of_further.
    + intros c _. cbv beta. rewrite Counter_cons, Q_of_nat_add.
      destruct (decide (v = c)).
      * change (Q_of_nat 1) with 1%Q. ring.
      * change (Q_of_nat 0) with 0%Q. ring.
Qed.

Lemma Q_of_nat_nonzero n : 0 < n → ¬ (Q_of_nat n == 0)%Q.
Proof.
  intros Hn H0. apply Q_of_nat_pos in Hn. rewrite H0 in Hn.
  by apply Qlt_irrefl in Hn.
Qed.

(** The exact quotients of all training labels add up to the number of
    training labels. *)
Lemma exact_weights_total (y : list Z) :
  y ≠ [] →
  (np_sum ((λ c, Q_of_nat (length y)
                 / (Q_of_nat (length (np_unique y))
                    * Q_of_nat (Counter y c))) <$> y)
   == Q_of_nat (length y))%Q.
Proof.
  intros Hne. set (K := length (np_unique y)) in *.
  assert (0 < K) as HK.
  { destruct y as [|v y]; [done|].
    eapply np_unique_length_pos, list_elem_of_here. }
  pose proof (Q_of_nat_nonzero K HK) as HK0.
  rewrite (np_sum_by_class _ y (np_unique y));
    [|apply np_unique_NoDup|intros v; by rewrite elem_of_np_unique].
  rewrite (np_sum_ext _ (λ _, Q_of_nat (length y) / Q_of_nat K)%Q).
  - rewrite np_sum_const. fold K. by field.
  - intros c Hc. apply (proj1 (elem_of_np_unique _ _)) in Hc.
    apply Counter_pos, Q_of_nat_nonzero in Hc. cbv beta. by field.
Qed.

Lemma np_sum_scale {A : Type} (g : A → Q) (u : Q) (l : list A) :
  (np_sum ((λ x, g x * u) <$> l) == np_sum (g <$> l) * u)%Q.
Proof.
  induction l as [|x l IH]; [change (0 == 0 * u)%Q; ring|].
  rewrite !fmap_cons, !np_sum_cons, IH. ring.
Qed.

Lemma np_sum_error {A : Type} (f g h : A → Q) (l : list A) :
  (∀ x, x ∈ l → Qabs (f x - g x) <= h x)%Q →
  (Qabs (np_sum (f <$> l) - np_sum (g <$> l)) <= np_sum (h <$> l))%Q.
Proof.
  induction l as [|x l IH]; intros Hfg; [by vm_compute|].
  rewrite !fmap_cons, !np_sum_cons.
  pose proof (Hfg x (list_elem_of_here _ _)) as Hx.
  assert (Qabs (np_sum (f <$> l) - np_sum (g <$> l)) <= np_sum (h <$> l))%Q
    as Hl by (apply IH; intros z Hz; by apply Hfg, list_elem_of_further).
  apply Qabs_Qle_condition in Hx, Hl. apply Qabs_Qle_condition.
  split; lra.
Qed.

(** X10. The float64 class weights of all training labels, added without
    further rounding, differ from the number of training labels by at
    most that number times 2^-53: weighting by class changes the total
    sample weight by rounding only. *)
Theorem class_weights_total (y : list Z) :
  y ≠ [] →
  ∃ cw,
    class_weights_f64 y = Ok cw
    ∧ (Qabs (np_sum ((λ v, default 0%Q (cw !! v)) <$> y)
             - Q_of_nat (length y))
       <= Q_of_nat (length y) * 2 ^ (-53))%Q.
Proof.
  intros Hne. destruct (class_weights_f64_ok y Hne) as (cw & Hcw & Hin & _).
  exists cw. split; [done|].
  set (x := λ c, (Q_of_nat (length y)
                  / (Q_of_nat (length (np_unique y))
                     * Q_of_nat (Counter y c)))%Q).
  assert (0 < Q_of_nat (length y))%Q as HN.
  { apply Q_of_nat_pos. destruct y; [done|simpl; lia]. }
  assert (∀ c, c ∈ y → 0 < x c)%Q as Hpos.
  { intros c Hc. apply Qdiv_pos; [done|].
    apply Qmult_lt_0_compat; apply Q_of_nat_pos.
    - by eapply np_unique_length_pos.
    - by apply Counter_pos. }
  rewrite <- (exact_weights_total y Hne) at 1 2. fold x.
  rewrite <- np_sum_scale.
  apply np_sum_error. intros c Hc. cbv beta. rewrite Hin by done.
  cbn [default]. fold (x c).
  pose proof (round64_error (x c)) as He.
  rewrite (Qabs_pos (x c)) in He by (apply Qlt_le_weak; by apply Hpos).
  done.
Qed.

(** X11. When every label that occurs occurs equally often (in
    particular when there is a single class), every weight is 1. *)
Theorem class_weights_uniform (y : list Z) (m : nat) :
  y ≠ [] →
  (∀ c, c ∈ y → Counter y c = m) →
  ∃ cw,
    class_weights y = Ok cw
    ∧ ∀ c, c ∈ y → ∃ w, cw !! c = Some w ∧ (w == 1)%Q.
Proof.
  intros Hne Hm. destruct (class_weights_ok y Hne) as (cw & Hcw & Hin & _).
  exists cw. split; [done|]. intros c Hc. eexists. split; [by apply Hin|].
  set (K := length (np_unique y)) in *.
  pose proof (np_unique_length_pos y c Hc) as HK. fold K in HK.
  pose proof (Q_of_nat_nonzero K HK) as HK0.
  assert (0 < m) as Hmpos by (rewrite <- (Hm c Hc); by apply Counter_pos).
  pose proof (Q_of_nat_nonzero m Hmpos) as Hm0.
  assert (Q_of_nat (length y) == Q_of_nat K * Q_of_nat m)%Q as ->.
  { pose proof (np_sum_by_class (λ _, 1%Q) y (np_unique y)
                  (np_unique_NoDup y)) as Hsum.
    rewrite np_sum_const in Hsum.
    rewrite (np_sum_ext _ (λ _, Q_of_nat m)) in Hsum.
    - rewrite np_sum_const in Hsum. fold K in Hsum.
      rewrite <- Hsum; [ring|]. intros v. by rewrite elem_of_np_unique.
    - intros z Hz. apply (proj1 (elem_of_np_unique _ _)) in Hz.
      cbv beta. rewrite (Hm z Hz). ring. }
  rewrite (Hm c Hc). by field.
Qed.

(** X12. [dict] keeps, for every key, the value of the last pair with
    that key, and has no entry for a key that no pair carries. *)
Theorem dict_last_wins (pairs : list (Z * Q)) (k : Z) :
  dict pairs !! k = snd <$> last (filter (λ kv, kv.1 = k) pairs).
Proof.
  induction pairs as [|[k0 v0] pairs IH] using rev_ind; [done|].
  unfold dict in *. rewrite foldl_snoc, filter_app. simpl fst. simpl snd.
  rewrite filter_cons, filter_nil. simpl.
  destruct (decide (k0 = k)) as [->|Hne].
  - rewrite lookup_insert_eq, last_snoc. done.
  - rewrite lookup_insert_ne, app_nil_r by done. done.
Qed.

(** ** More on cells 15 and 16 *)

(** X13. [np_round] returns an integer at distance at most 1/2 from its
    argument, and the even one when the argument lies halfway between two
    integers. *)
Theorem np_round_nearest (q : Q) :
  (Qabs (q - inject_Z (np_round q)) <= 1 # 2)%Q
  ∧ ((q - inject_Z (Qfloor q) == 1 # 2)%Q → Z.even (np_round q) = true).
Proof.
  pose proof (Qfloor_le q) as Hlo. pose proof (Qlt_floor q) as Hhi.
  rewrite inject_Z_plus in Hhi. change (inject_Z 1) with 1%Q in Hhi.
  unfold np_round. cbv zeta.
  destruct (q - inject_Z (Qfloor q) ?= 1 # 2)%Q eqn:Hcmp.
  - apply Qeq_alt in Hcmp. split.
    + apply Qabs_Qle_condition.
      destruct (Z.even (Qfloor q));
        rewrite ?inject_Z_plus; change (inject_Z 1) with 1%Q; split; lra.
    + intros _. destruct (Z.even (Qfloor q)) eqn:He; [done|].
      rewrite Z.add_1_r, Z.even_succ, <- Z.negb_even. by rewrite He.
  - apply Qlt_alt in Hcmp. split.
    + apply Qabs_Qle_condition. split; lra.
    + intros Heq. lra.
  - apply Qgt_alt in Hcmp. split.
    + apply Qabs_Qle_condition.
      rewrite inject_Z_plus. change (inject_Z 1) with 1%Q. split; lra.
    + intros Heq. lra.
Qed.

Lemma Q_of_nat_le n m : n ≤ m → (Q_of_nat n <= Q_of_nat m)%Q.
Proof. intros Hn. unfold Q_of_nat. rewrite <- Zle_Qle. lia. Qed.

Lemma Q_of_nat_ratio_unit k n :
  k ≤ n → 0 < n →
  (0 <= Q_of_nat k / Q_of_nat n)%Q ∧ (Q_of_nat k / Q_of_nat n <= 1)%Q.
Proof.
  intros Hk Hn. pose proof (Q_of_nat_pos n Hn) as Hpos.
  pose proof (Q_of_nat_le 0 k (Nat.le_0_l k)) as Hk0.
  pose proof (Q_of_nat_le k n Hk) as Hkn.
  change (Q_of_nat 0) with 0%Q in Hk0. split.
  - apply Qle_shift_div_l; [done|]. lra.
  - apply Qle_shift_div_r; [done|]. lra.
Qed.

Lemma Q_of_nat_ratio_one k n :
  0 < n → (Q_of_nat k / Q_of_nat n == 1)%Q ↔ k = n.
Proof.
  intros Hn. pose proof (Q_of_nat_nonzero n Hn) as Hn0. split.
  - intros Heq.
    assert (Q_of_nat k == Q_of_nat n)%Q as Hkn.
    { rewrite <- (Qmult_1_l (Q_of_nat n)), <- Heq. by field. }
    unfold Q_of_nat in Hkn. apply (proj1 (inject_Z_injective _ _)) in Hkn.
    lia.
  - intros ->. by field.
Qed.

Lemma length_filter_full {A : Type} (P : A → Prop)
    `{!∀ x, Decision (P x)} (l : list A) :
  length (filter P l) = length l ↔ Forall P l.
Proof.
  induction l as [|x l IH]; [by split; [constructor|]|].
  rewrite filter_cons, Forall_cons. pose proof (length_filter P l) as Hle.
  destruct (decide (P x)); simpl.
  - rewrite <- IH. split; [intros [= ?]; done|intros [_ ->]; done].
  - split; [lia|tauto].
Qed.

Section evaluator_more.
Context {feature : Type}.
Variable predict : feature → Q.

Lemma length_y_pred_of (X_test : list feature) :
  length (y_pred_of predict X_test) = length X_test.
Proof. unfold y_pred_of. by rewrite length_fmap. Qed.

Lemma cell16_accuracy_value (X_test : list feature) (y_test : list Z) :
  length X_test = length y_test →
  X_test ≠ [] →
  ∃ acc,
    cell16_accuracy predict X_test y_test = Ok acc
    ∧ (acc
       == Q_of_nat (length (filter (λ p, np_round (predict p.1) = p.2)
                              (zip X_test y_test)))
          / Q_of_nat (length X_test))%Q.
Proof.
  intros Hlen Hne. unfold cell16_accuracy, accuracy_score.
  rewrite decide_True by (by rewrite length_y_pred_of).
  rewrite decide_False by (unfold y_pred_of; by destruct X_test).
  eexists. split; [done|].
  rewrite np_sum_score, length_zip_with_l_eq, length_y_pred_of
    by (by rewrite length_y_pred_of).
  done.
Qed.

(** X14. On a non-empty test set and a model with outputs in [0,1], both
    printed numbers lie between 0 and 1. *)
Theorem metrics_in_unit_interval (X_test : list feature) (y_test : list Z) :
  (∀ x, (0 <= predict x)%Q ∧ (predict x <= 1)%Q) →
  length X_test = length y_test →
  X_test ≠ [] →
  (0 <= positive_fraction (y_pred_of predict X_test))%Q
  ∧ (positive_fraction (y_pred_of predict X_test) <= 1)%Q
  ∧ ∃ acc,
      cell16_accuracy predict X_test y_test = Ok acc
      ∧ (0 <= acc)%Q ∧ (acc <= 1)%Q.
Proof.
  intros Hrange Hlen Hne.
  assert (0 < length X_test) as Hn by (destruct X_test; [done|simpl; lia]).
  unfold positive_fraction.
  rewrite np_sum_y_pred, length_y_pred_of by done.
  destruct (Q_of_nat_ratio_unit
    (length (filter (λ x, np_round (predict x) = 1%Z) X_test))
    (length X_test)) as [H0 H1]; [apply length_filter|done|].
  split; [done|]. split; [done|].
  destruct (cell16_accuracy_value X_test y_test Hlen Hne) as (acc & Hacc & Hval).
  exists acc. split; [done|]. rewrite Hval.
  apply Q_of_nat_ratio_unit; [|done].
  etrans; [apply length_filter|]. rewrite length_zip. lia.
Qed.

Lemma matches_of_constant_prediction (X_test : list feature)
    (y_test : list Z) (v : Z) :
  (∀ x, np_round (predict x) = v) →
  length X_test = length y_test →
  length (filter (λ p, np_round (predict p.1) = p.2) (zip X_test y_test))
  = Counter y_test v.
Proof.
  intros Hv. revert y_test.
  induction X_test as [|x X_test IH]; intros [|w y_test] Hlen;
    try done.
  cbn [zip zip_with]. rewrite filter_cons, Counter_cons. cbn [fst snd].
  rewrite Hv. injection Hlen as Hlen.
  destruct (decide (v = w)) as [->|Hne].
  - rewrite decide_True by done. simpl. by rewrite IH.
  - rewrite decide_False by congruence. by rewrite IH.
Qed.

(** X15. A model whose outputs never exceed 0.5 predicts no sample as 1:
    the printed fraction of ones is 0 and the printed accuracy is the
    share of label 0 among the test labels. *)
Theorem never_above_half_predicts_zero (X_test : list feature)
    (y_test : list Z) :
  (∀ x, (0 <= predict x)%Q ∧ (predict x <= 1 # 2)%Q) →
  length X_test = length y_test →
  X_test ≠ [] →
  (∀ p, p ∈ y_pred_of predict X_test → p = 0%Q)
  ∧ (positive_fraction (y_pred_of predict X_test) == 0)%Q
  ∧ ∃ acc,
      cell16_accuracy predict X_test y_test = Ok acc
      ∧ (acc == Q_of_nat (Counter y_test 0) / Q_of_nat (length y_test))%Q.
Proof.
  intros Hrange Hlen Hne.
  assert (∀ x, np_round (predict x) = 0%Z) as Hzero.
  { intros x. destruct (Hrange x) as [H0 Hh].
    destruct (Qle_lt_or_eq _ _ Hh) as [Hlt|Heq].
    - by apply np_round_below.
    - by apply np_round_half. }
  assert (0 < length X_test) as Hn by (destruct X_test; [done|simpl; lia]).
  pose proof (Q_of_nat_nonzero _ Hn) as Hn0.
  split; [|split].
  - intros p (x & -> & _)%list_elem_of_fmap. by rewrite Hzero.
  - unfold positive_fraction. rewrite np_sum_y_pred, length_y_pred_of.
    + assert (filter (λ x, np_round (predict x) = 1%Z) X_test = []) as ->.
      { clear -Hzero. induction X_test as [|x X_test IH]; [done|].
        rewrite filter_cons, Hzero. by rewrite decide_False. }
      change (Q_of_nat (length [])) with 0%Q. by field.
    + intros x. destruct (Hrange x) as [H0 Hh]. split; [done|]. lra.
  - destruct (cell16_accuracy_value X_test y_test Hlen Hne)
      as (acc & Hacc & Hval).
    exists acc. split; [done|].
    by rewrite Hval, (matches_of_constant_prediction _ _ 0%Z), Hlen.
Qed.

(** X16. On a non-empty test set the printed accuracy is 1 exactly when
    every rounded prediction equals the test label at the same index. *)
Theorem accuracy_one_iff_all_match (X_test : list feature)
    (y_test : list Z) :
  length X_test = length y_test →
  X_test ≠ [] →
  ∃ acc,
    cell16_accuracy predict X_test y_test = Ok acc
    ∧ ((acc == 1)%Q
       ↔ ∀ i x v, X_test !! i = Some x → y_test !! i = Some v →
                  np_round (predict x) = v).
Proof.
  intros Hlen Hne.
  assert (0 < length X_test) as Hn by (destruct X_test; [done|simpl; lia]).
  destruct (cell16_accuracy_value X_test y_test Hlen Hne) as (acc & Hacc & Hval).
  exists acc. split; [done|].
  rewrite Hval, Q_of_nat_ratio_one by done.
  rewrite <- (length_zip_with_l_eq pair X_test y_test) by done.
  rewrite length_filter_full, Forall_lookup. split.
  - intros Hall i x v Hx Hv. apply (Hall i (x, v)).
    apply lookup_zip_with_Some. eauto.
  - intros Hall i [x v] (? & ? & [= <- <-] & Hx & Hv)%lookup_zip_with_Some.
    simpl. eauto.
Qed.
End evaluator_more.

(** ** Cells 5 to 11 in sequence *)

(** X17. Cells 5 to 11 on an aligned table. With fewer than 200 rows
    cell 5 raises IndexError. With at least 200 rows of which fewer than
    two survive cell 6, cell 8 raises ValueError. Otherwise the cells
    complete: the training pairs followed by the test pairs are a
    permutation of the surviving rows, each feature row with its label,
    the training part is not empty, and the dictionary has an entry for
    exactly the labels of the training part. *)
Theorem cells_5_to_11_runs {feature : Type} (permutation : nat → list nat)
    (X : list feature) (y : list Z) :
  (∀ m, permutation m ≡ₚ seq 0 m) →
  length X = length y →
  let d' := filter (λ s, s.2 ≠ 0%Z) (take 200 (zip X y))
            ++ drop 200 (zip X y) in
  (length y < 200 → cells_5_to_11 permutation X y = Raise IndexError)
  ∧ (200 ≤ length y → length d' < 2 →
     cells_5_to_11 permutation X y = Raise ValueError)
  ∧ (200 ≤ length y → 2 ≤ length d' →
     ∃ X_train X_test y_train y_test cw,
       cells_5_to_11 permutation X y
       = Ok (X_train, X_test, y_train, y_test, cw)
       ∧ zip X_train y_train ++ zip X_test y_test ≡ₚ d'
       ∧ y_train ≠ []
       ∧ ∀ c, is_Some (cw !! c) ↔ c ∈ y_train).
Proof.
  intros Hperm Hlen d'. unfold cells_5_to_11.
  change (inject_imbalance X y) with (inject 200 0 X y).
  change d' with (survivors 200 0 (zip X y)).
  split; [|split].
  - intros Hn. by rewrite inject_zip_short.
  - intros Hn Hrows. rewrite inject_zip by done. cbn [rbind].
    unfold cell8, train_test_split.
    rewrite decide_True by (by rewrite !length_fmap).
    rewrite decide_True; [done|].
    apply n_train_of_small. by rewrite length_fmap.
  - intros Hn Hrows. rewrite inject_zip by done. cbn [rbind].
    destruct (train_test_split_sizes permutation Hperm
                (survivors 200 0 (zip X y)).*1
                (survivors 200 0 (zip X y)).*2)
      as (X_train & X_test & y_train & y_test & Hsplit
          & _ & _ & H3 & _).
    { by rewrite !length_fmap. }
    { by rewrite length_fmap. }
    unfold cell8. rewrite Hsplit. cbn [rbind].
    assert (y_train ≠ []) as Hne.
    { intros ->. rewrite length_fmap in H3.
      pose proof (n_train_of_pos _ Hrows). simpl in H3. lia. }
    destruct (class_weights_ok y_train Hne) as (cw & -> & Hin & Hout).
    cbn [rbind]. exists X_train, X_test, y_train, y_test, cw.
    split; [done|]. split; [|split; [done|]].
    + rewrite (train_test_split_pairs permutation Hperm _ _ _ _ _ _ _
                 Hsplit).
      by rewrite zip_fst_snd.
    + intros c. destruct (decide (c ∈ y_train)) as [Hc|Hc].
      * rewrite Hin by done. split; [done|by eexists].
      * rewrite Hout by done. split; [by intros [? ?]|done].
Qed.

(** ** Concrete runs of the further properties *)

(** Three rows, the two visited ones labelled 1: nothing is removed. *)
Lemma inject_no_match_identity_witness :
  inject 2 0 [10; 11; 12] [1; 1; 0]%Z = Ok ([10; 11; 12], [1; 1; 0]%Z).
Proof.
  apply (inject_no_match_identity 2 0 [10; 11; 12] [1; 1; 0]%Z).
  - simpl. lia.
  - apply (bool_decide_unpack (0%Z ∉ take 2 [1; 1; 0]%Z)).
    vm_compute. exact I.
Defined.

(** Four rows, one of the two visited rows removed: three rows remain. *)
Lemma inject_length_witness :
  ∃ X' y',
    inject 2 0 [10; 11; 12; 13] [0; 1; 0; 0]%Z = Ok (X', y')
    ∧ length y' = 3 ∧ length X' = 3.
Proof.
  destruct (inject_length 2 0 [10; 11; 12; 13] [0; 1; 0; 0]%Z
              eq_refl ltac:(simpl; lia))
    as (X' & y' & Hinj & Hy & HX).
  exists X', y'. split; [exact Hinj|].
  change (Counter (take 2 [0; 1; 0; 0]%Z) 0) with 1 in Hy, HX.
  simpl in Hy, HX. split; lia.
Defined.

(** Same rows: one scanned row survives, the two unscanned rows follow. *)
Lemma inject_clean_prefix_same_tail_witness :
  ∃ X' y',
    inject 2 0 [10; 11; 12; 13] [0; 1; 0; 0]%Z = Ok (X', y')
    ∧ drop 1 y' = [0; 0]%Z ∧ drop 1 X' = [12; 13].
Proof.
  destruct (inject_clean_prefix_same_tail 2 0 [10; 11; 12; 13]
              [0; 1; 0; 0]%Z eq_refl ltac:(simpl; lia))
    as (X' & y' & Hinj & _ & Hy & HX).
  exists X', y'. split; [exact Hinj|]. split; [exact Hy|exact HX].
Defined.

(** The lists cell 5 leaves for the same rows are left as they are by a
    second run. *)
Lemma cell5_idempotent_witness :
  blank_rows 2 0 ([None; Some 11; Some 12; Some 13],
                  [None; Some 1%Z; Some 0%Z; Some 0%Z])
  = Ok ([None; Some 11; Some 12; Some 13],
        [None; Some 1%Z; Some 0%Z; Some 0%Z]).
Proof.
  apply (cell5_idempotent 2 0
           (Some <$> [10; 11; 12; 13], Some <$> [0; 1; 0; 0]%Z)).
  vm_compute. reflexivity.
Defined.

(** Five rows split with the reversing permutation: four training rows
    and one test row, together the five input pairs. *)
Lemma train_test_split_partition_witness :
  zip [13; 12; 11; 10] [0; 1; 1; 0]%Z ++ zip [14] [1%Z]
  ≡ₚ zip [10; 11; 12; 13; 14] [0; 1; 1; 0; 1]%Z.
Proof.
  apply (train_test_split_partition (λ m, reverse (seq 0 m))
           (λ m, reverse_Permutation _)
           [10; 11; 12; 13; 14] [13; 12; 11; 10] [14]
           [0; 1; 1; 0; 1]%Z [0; 1; 1; 0]%Z [1%Z]).
  vm_compute. reflexivity.
Defined.

(** Same split: two zeros in the training labels, none in the test
    labels, two in all. *)
Lemma train_test_split_counts_witness :
  Counter [0; 1; 1; 0]%Z 0 + Counter [1%Z] 0 = Counter [0; 1; 1; 0; 1]%Z 0.
Proof.
  apply (train_test_split_counts (λ m, reverse (seq 0 m))
           (λ m, reverse_Permutation _)
           [10; 11; 12; 13; 14] [13; 12; 11; 10] [14]
           [0; 1; 1; 0; 1]%Z [0; 1; 1; 0]%Z [1%Z] 0%Z).
  vm_compute. reflexivity.
Defined.

(** Two orders of the same three labels give one dictionary. *)
Lemma class_weights_Permutation_witness :
  class_weights [0; 1; 1]%Z = class_weights [1; 0; 1]%Z.
Proof.
  apply class_weights_Permutation. apply perm_swap.
Defined.

(** Seven labels with float64 weights 1.75 and 0.7: added exactly, the
    weights are within 7 * 2^-53 of 7. *)
Lemma class_weights_total_witness :
  ∃ cw,
    class_weights_f64 [1; 0; 1; 1; 0; 1; 1]%Z = Ok cw
    ∧ (Qabs (np_sum ((λ v, default 0%Q (cw !! v))
                     <$> [1; 0; 1; 1; 0; 1; 1]%Z) - 7)
       <= 7 * 2 ^ (-53))%Q.
Proof.
  destruct (class_weights_total [1; 0; 1; 1; 0; 1; 1]%Z)
    as (cw & Hcw & Hsum); [discriminate|].
  exists cw. split; [exact Hcw|exact Hsum].
Defined.

(** Two zeros and two ones: both weights are 1. *)
Lemma class_weights_uniform_witness :
  ∃ cw w,
    class_weights [0; 1; 1; 0]%Z = Ok cw
    ∧ cw !! 0%Z = Some w ∧ (w == 1)%Q.
Proof.
  destruct (class_weights_uniform [0; 1; 1; 0]%Z 2)
    as (cw & Hcw & Hall).
  - discriminate.
  - intros c Hc. apply Counter_pos in Hc.
    destruct (decide (c = 0%Z)) as [->|H0]; [reflexivity|].
    destruct (decide (c = 1%Z)) as [->|H1]; [reflexivity|].
    rewrite !Counter_cons, Counter_nil in Hc.
    repeat (rewrite decide_False in Hc by congruence). simpl in Hc. lia.
  - destruct (Hall 0%Z) as (w & Hw & Hone);
      [apply Counter_pos; vm_compute; lia|].
    exists cw, w. split; [exact Hcw|]. split; [exact Hw|exact Hone].
Defined.

(** Four test rows and a model with outputs 0.3 and 0.9. *)
Lemma metrics_in_unit_interval_witness :
  let predict := λ x : nat, if decide (x < 2) then 0.3%Q else 0.9%Q in
  (positive_fraction (y_pred_of predict (seq 0 4)) <= 1)%Q.
Proof.
  intros predict.
  destruct (metrics_in_unit_interval predict (seq 0 4) [0; 1; 1; 1]%Z)
    as (_ & Hle & _).
  - intros x. unfold predict. destruct (decide (x < 2)); by vm_compute.
  - reflexivity.
  - discriminate.
  - exact Hle.
Defined.

(** A model with constant output 0.3 on four test rows with one label 0:
    no predicted ones, accuracy 1/4. *)
Lemma never_above_half_predicts_zero_witness :
  let predict := λ _ : nat, 0.3%Q in
  (positive_fraction (y_pred_of predict (seq 0 4)) == 0)%Q
  ∧ ∃ acc,
      cell16_accuracy predict (seq 0 4) [0; 1; 1; 1]%Z = Ok acc
      ∧ (acc == 1 # 4)%Q.
Proof.
  intros predict.
  destruct (never_above_half_predicts_zero predict (seq 0 4)
              [0; 1; 1; 1]%Z)
    as (_ & Hfrac & acc & Hacc & Hval).
  - intros x. by vm_compute.
  - reflexivity.
  - discriminate.
  - split; [exact Hfrac|]. exists acc. split; [exact Hacc|].
    rewrite Hval. vm_compute. reflexivity.
Defined.

(** A model that is right on all four test rows has accuracy 1. *)
Lemma accuracy_one_iff_all_match_witness :
  let predict := λ x : nat, if decide (x < 1) then 0.3%Q else 0.9%Q in
  ∃ acc,
    cell16_accuracy predict (seq 0 4) [0; 1; 1; 1]%Z = Ok acc
    ∧ (acc == 1)%Q.
Proof.
  intros predict.
  destruct (accuracy_one_iff_all_match predict (seq 0 4) [0; 1; 1; 1]%Z)
    as (acc & Hacc & Hiff); [reflexivity|discriminate|].
  exists acc. split; [exact Hacc|]. apply Hiff.
  intros [|[|[|[|i]]]] x v [= <-] [= <-]; reflexivity.
Defined.

(** A two-row table raises in cell 5, 200 rows of label 0 followed by
    one row of label 1 raise in cell 8, and the scenario table runs
    through. *)
Lemma cells_5_to_11_runs_witness :
  cells_5_to_11 (λ m, reverse (seq 0 m)) [10; 11] [0; 1]%Z
  = Raise IndexError
  ∧ cells_5_to_11 (λ m, reverse (seq 0 m))
      (seq 0 201) (replicate 200 0%Z ++ [1%Z])
    = Raise ValueError
  ∧ ∃ r, cells_5_to_11 (λ m, reverse (seq 0 m)) scenario_X scenario_y
         = Ok r.
Proof.
  split; [|split].
  - apply (cells_5_to_11_runs (λ m, reverse (seq 0 m)) [10; 11] [0; 1]%Z
             (λ m, reverse_Permutation _) eq_refl).
    simpl. lia.
  - apply (cells_5_to_11_runs (λ m, reverse (seq 0 m))
             (seq 0 201) (replicate 200 0%Z ++ [1%Z])
             (λ m, reverse_Permutation _) eq_refl).
    + apply Nat.leb_le. vm_compute. reflexivity.
    + apply Nat.ltb_lt. vm_compute. reflexivity.
  - destruct (proj2 (proj2 (cells_5_to_11_runs (λ m, reverse (seq 0 m))
                              scenario_X scenario_y
                              (λ m, reverse_Permutation _) eq_refl)))
      as (X_train & X_test & y_train & y_test & cw & Hrun & _).
    + apply Nat.leb_le. vm_compute. reflexivity.
    + apply Nat.leb_le. vm_compute. reflexivity.
    + eexists. exact Hrun.
Defined.
